(** * logspout: route streamers, colorizer and the [/logs] handler

    A shallow embedding of [logspout.go].  Go strings are byte strings
    ([string] of [ascii]); the goroutine of a streamer is a computation in a
    small monad [M] that threads the outside world (clock, outcome of system
    calls, the trace of what was sent) and can stop the process
    ([log.Fatal]) or fault (a run-time panic).  A channel that is ranged over
    until it is closed is the list of the records it delivers.  What
    [debug] and [log.Println] print is not part of the trace, nor are the
    goroutines of [elasticsearchStreamer] that only print, the settings of
    its bulk indexer, and [Flush] in [httpStreamer]. *)

From Stdlib Require Import ZArith Ascii String List Lia Bool.
From Stdlib Require Import DecimalString DecimalN.
From stdpp Require Import gmap strings list fin_maps.

Local Open Scope Z_scope.

(** ** Strings: the functions of package [strings] and [strconv] in use *)

Module Strings.

(** [strings.Join(a, sep)] *)
Fixpoint Join (a : list string) (sep : string) : string :=
  match a with
  | [] => EmptyString
  | [x] => x
  | x :: rest => x +:+ sep +:+ Join rest sep
  end.

(** [strings.HasPrefix(s, prefix)] *)
Fixpoint HasPrefix (s prefix : string) : bool :=
  match prefix, s with
  | EmptyString, _ => true
  | String c p', String d s' => Ascii.eqb c d && HasPrefix s' p'
  | String _ _, EmptyString => false
  end.

(** [strings.Contains(s, substr)]: [substr] occurs at some offset of [s]. *)
Fixpoint Contains (s substr : string) : bool :=
  HasPrefix s substr ||
  match s with
  | EmptyString => false
  | String _ s' => Contains s' substr
  end.

(** One field of [strings.Split(s, sep)] for a one-byte separator: the
    bytes before the first [sep], and what follows it if there is one. *)
Fixpoint cut (sep : ascii) (s : string) : string * option string :=
  match s with
  | EmptyString => (EmptyString, None)
  | String c s' =>
      if Ascii.eqb c sep then (EmptyString, Some s')
      else let '(hd, tl) := cut sep s' in (String c hd, tl)
  end.

(** [strings.Split(s, sep)] for a one-byte [sep]; never empty. *)
Fixpoint Split_go (fuel : nat) (s : string) (sep : ascii) : list string :=
  match cut sep s, fuel with
  | (hd, Some tl), S fuel' => hd :: Split_go fuel' tl sep
  | (hd, _), _ => [hd]
  end.

Definition Split (s : string) (sep : ascii) : list string :=
  Split_go (String.length s) s sep.

(** [strconv.Itoa] *)
Definition Itoa (i : Z) : string :=
  match i with
  | Zneg p => String "-" (NilZero.string_of_uint (N.to_uint (Npos p)))
  | _ => NilZero.string_of_uint (N.to_uint (Z.to_N i))
  end.

(** [s[:n]]: the first [n] bytes; a run-time panic ([None]) when [n]
    exceeds [len(s)]. *)
Fixpoint slice_to (s : string) (n : nat) : option string :=
  match n, s with
  | O, _ => Some EmptyString
  | S n', String c s' => String c <$> slice_to s' n'
  | S _, EmptyString => None
  end.

End Strings.

(** ** Records of the data model *)

(** Modelled from the spec: the declaration of [Log] is not in
    [logspout.go]; the streamers read [Name], [Image], [Type] and [Data], the
    wire shape adds [id]. *)
Record Log := {
  ID : string;
  Name : string;
  Image : string;
  Type_ : string;   (* field [Type]; the name is reserved here *)
  Data : string
}.

(** Modelled from the spec: the declaration of [Target] is not in
    [logspout.go]; [main] builds one from [Type] and [Addr], the syslog
    streamer reads [Addr] and [AppendTag]. *)
Record Target := {
  TargetType : string;
  Addr : string;
  AppendTag : string
}.

(** ** The stream-type test every route streamer starts its loop with *)

Definition typestr_of (types : list string) : string :=
  "," +:+ Strings.Join types "," +:+ ",".

(** The negation of the [continue] guard
    [typestr != ",," && !strings.Contains(typestr, logline.Type)]. *)
Definition accepted (typestr : string) (logline : Log) : bool :=
  negb (negb (String.eqb typestr ",,") &&
        negb (Strings.Contains typestr (Type_ logline))).

(** ** Package [time]: an instant with its location, and [Format] *)

Module Time.

(** A [time.Time]: seconds since the Unix epoch and the offset (seconds
    east of UTC) its [Location] gives at that instant.  [time.Now()]
    carries the process's local zone. *)
Record t := { unix : Z; nsec : Z; offset : Z }.

Definition secondsPerDay : Z := 86400.
Definition daysPer400Years : Z := 365 * 400 + 97.
Definition daysPer100Years : Z := 365 * 100 + 24.
Definition daysPer4Years : Z := 365 * 4 + 1.
Definition absoluteZeroYear : Z := -292277022399.
Definition unixToInternal : Z :=
  (1969 * 365 + 1969 / 4 - 1969 / 100 + 1969 / 400) * secondsPerDay.
(** [(absoluteZeroYear - internalYear) * 365.2425 * secondsPerDay],
    negated; [365.2425 * 86400 = 31556952]. *)
Definition internalToAbsolute : Z := - ((absoluteZeroYear - 1) * 31556952).

(** [t.abs()]: seconds since the absolute zero year, in the zone of [t],
    as a [uint64]. *)
Definition abs (x : t) : Z :=
  (unix x + offset x + (unixToInternal + internalToAbsolute)) mod 2 ^ 64.

(** The first half of [absDate]: the year and the day in the year. *)
Definition yearDay (abs : Z) : Z * Z :=
  let d := abs / secondsPerDay in
  let n := d / daysPer400Years in
  let y := 400 * n in
  let d := d - daysPer400Years * n in
  let n := d / daysPer100Years in
  let n := n - Z.shiftr n 2 in
  let y := y + 100 * n in
  let d := d - daysPer100Years * n in
  let n := d / daysPer4Years in
  let y := y + 4 * n in
  let d := d - daysPer4Years * n in
  let n := d / 365 in
  let n := n - Z.shiftr n 2 in
  let y := y + n in
  let d := d - 365 * n in
  (y + absoluteZeroYear, d).

Definition isLeap (year : Z) : bool :=
  (year mod 4 =? 0) && (negb (year mod 100 =? 0) || (year mod 400 =? 0)).

Definition daysBefore : list Z :=
  [0; 31; 59; 90; 120; 151; 181; 212; 243; 273; 304; 334; 365].

(** The second half of [absDate]: month (1..12) and day of the month. *)
Definition monthDay (year yday : Z) : Z * Z :=
  let leap := isLeap year in
  if leap && (yday =? 31 + 29 - 1) then (2, 29)
  else
    let day := if leap && (31 + 29 - 1 <? yday) then yday - 1 else yday in
    let month := day / 31 in
    let end_ := nth (Z.to_nat (month + 1)) daysBefore 0 in
    if end_ <=? day then (month + 2, day - end_ + 1)
    else (month + 1, day - nth (Z.to_nat month) daysBefore 0 + 1).

(** [t.Date()] *)
Definition Date (x : t) : Z * Z * Z :=
  let '(year, yday) := yearDay (abs x) in
  let '(month, day) := monthDay year yday in
  (year, month, day).

(** [appendInt(b, x, width)]: decimal, zero-padded to [width] digits
    after the sign. *)
Definition zeroPad (width : nat) (digits : string) : string :=
  Nat.iter (width - String.length digits) (String "0") digits.

Definition appendInt (x : Z) (width : nat) : string :=
  match x with
  | Zneg p => String "-" (zeroPad width (Strings.Itoa (Zpos p)))
  | _ => zeroPad width (Strings.Itoa x)
  end.

(** [t.Format(layout)] for layouts made of the chunks ["2006"], ["01"],
    ["02"] and bytes that start no chunk, which is what
    [indexDateStampLayout] is made of. *)
Fixpoint Format_go (date : Z * Z * Z) (layout : string) : string :=
  let '(year, month, day) := date in
  match layout with
  | String "2" (String "0" (String "0" (String "6" rest))) =>
      appendInt year 4 +:+ Format_go date rest
  | String "0" (String "1" rest) => appendInt month 2 +:+ Format_go date rest
  | String "0" (String "2" rest) => appendInt day 2 +:+ Format_go date rest
  | String c rest => String c (Format_go date rest)
  | EmptyString => EmptyString
  end.

Definition Format (x : t) (layout : string) : string :=
  Format_go (Date x) layout.

End Time.

(** ** Values of type [interface{}] and package [encoding/json] *)

(** What a document holds: the values [json.Unmarshal] stores in an
    [interface{}] (a number keeps its literal instead of a [float64]),
    the strings the streamer stores, and [time.Time]. *)
#[warnings="-register-all"] Inductive iface :=
| INil
| IBool (b : bool)
| INumber (literal : string)
| IString (s : string)
| IArray (a : list iface)
| IObject (members : list (string * iface))
| ITime (x : Time.t).

Module Json.

Definition dquote : ascii := "034"%char.
Definition backslash : ascii := "092"%char.

Definition isSpace (c : ascii) : bool :=
  Ascii.eqb c " " || Ascii.eqb c "009" || Ascii.eqb c "010" || Ascii.eqb c "013".

Definition isDigit (c : ascii) : bool :=
  let n := nat_of_ascii c in (48 <=? n)%nat && (n <=? 57)%nat.

Fixpoint skipSpace (s : string) : string :=
  match s with
  | String c s' => if isSpace c then skipSpace s' else s
  | EmptyString => s
  end.

Definition hexval (c : ascii) : option N :=
  let n := N_of_ascii c in
  if (48 <=? n)%N && (n <=? 57)%N then Some (n - 48)%N
  else if (97 <=? n)%N && (n <=? 102)%N then Some (n - 87)%N
  else if (65 <=? n)%N && (n <=? 70)%N then Some (n - 55)%N
  else None.

Definition hex4 (a b c d : ascii) : option N :=
  h1 ← hexval a; h2 ← hexval b; h3 ← hexval c; h4 ← hexval d;
  Some (((h1 * 16 + h2) * 16 + h3) * 16 + h4)%N.

Definition byte (n : N) : ascii := ascii_of_N n.

(** UTF-8 encoding of a code point, [utf8.EncodeRune]. *)
Definition encodeRune (r : N) (k : string) : string :=
  if (r <? 128)%N then String (byte r) k
  else if (r <? 2048)%N then
    String (byte (192 + r / 64)) (String (byte (128 + r mod 64)) k)
  else if (r <? 65536)%N then
    String (byte (224 + r / 4096))
      (String (byte (128 + (r / 64) mod 64)) (String (byte (128 + r mod 64)) k))
  else
    String (byte (240 + r / 262144))
      (String (byte (128 + (r / 4096) mod 64))
         (String (byte (128 + (r / 64) mod 64)) (String (byte (128 + r mod 64)) k))).

Definition isSurrogate (r : N) : bool := (55296 <=? r)%N && (r <? 57344)%N.

(** The bytes of a string literal after its opening quote, unquoted, and
    what follows the closing quote.  An escaped surrogate pair is one code
    point, a lone surrogate is U+FFFD; bytes outside ASCII are kept as
    they are. *)
Fixpoint stringBody (s : string) : option (string * string) :=
  match s with
  | EmptyString => None
  | String c s1 =>
      if Ascii.eqb c dquote then Some (EmptyString, s1)
      else if Ascii.eqb c backslash then
        match s1 with
        | String "u" (String a (String b (String x (String y s2)))) =>
            r ← hex4 a b x y;
            match s2 with
            | String e (String "u" (String a' (String b' (String x' (String y' s3))))) =>
                match (if Ascii.eqb e backslash then hex4 a' b' x' y' else None) with
                | Some r' =>
                    if (55296 <=? r)%N && (r <? 56320)%N &&
                       (56320 <=? r')%N && (r' <? 57344)%N
                    then
                      '(body, rest) ← stringBody s3;
                      Some (encodeRune ((r - 55296) * 1024 + (r' - 56320) + 65536) body, rest)
                    else
                      '(body, rest) ← stringBody s2;
                      Some (encodeRune (if isSurrogate r then 65533%N else r) body, rest)
                | None =>
                    '(body, rest) ← stringBody s2;
                    Some (encodeRune (if isSurrogate r then 65533%N else r) body, rest)
                end
            | _ =>
                '(body, rest) ← stringBody s2;
                Some (encodeRune (if isSurrogate r then 65533%N else r) body, rest)
            end
        | String e s2 =>
            c' ← (if Ascii.eqb e dquote then Some dquote
                  else if Ascii.eqb e backslash then Some backslash
                  else if Ascii.eqb e "/" then Some "/"%char
                  else if Ascii.eqb e "b" then Some "008"%char
                  else if Ascii.eqb e "f" then Some "012"%char
                  else if Ascii.eqb e "n" then Some "010"%char
                  else if Ascii.eqb e "r" then Some "013"%char
                  else if Ascii.eqb e "t" then Some "009"%char
                  else None);
            '(body, rest) ← stringBody s2;
            Some (String c' body, rest)
        | EmptyString => None
        end
      else if (nat_of_ascii c <? 32)%nat then None
      else
        '(body, rest) ← stringBody s1;
        Some (String c body, rest)
  end.

(** A maximal run of digits, and what follows it. *)
Fixpoint digits (s : string) : string * string :=
  match s with
  | String c s' =>
      if isDigit c then let '(d, rest) := digits s' in (String c d, rest)
      else (EmptyString, s)
  | EmptyString => (EmptyString, s)
  end.

(** A number literal: an optional minus sign, then 0 or a run of digits
    that starts with 1 to 9, an optional fraction (a dot and digits) and an
    optional exponent (e or E, an optional sign, digits). *)
Definition number (s : string) : option (string * string) :=
  let '(sign, s) :=
    match s with String "-" s' => ("-", s') | _ => (EmptyString, s) end in
  '(int, s) ←
    match s with
    | String "0" s' => Some ("0", s')
    | _ => let '(d, rest) := digits s in
           match d with EmptyString => None | _ => Some (d, rest) end
    end;
  '(frac, s) ←
    match s with
    | String "." s' =>
        let '(d, rest) := digits s' in
        match d with EmptyString => None | _ => Some (String "." d, rest) end
    | _ => Some (EmptyString, s)
    end;
  '(exp, s) ←
    match s with
    | String e s' =>
        if Ascii.eqb e "e" || Ascii.eqb e "E" then
          let '(sg, s'') :=
            match s' with
            | String "+" r => ("+", r)
            | String "-" r => ("-", r)
            | _ => (EmptyString, s')
            end in
          let '(d, rest) := digits s'' in
          match d with
          | EmptyString => None
          | _ => Some (String e (sg +:+ d), rest)
          end
        else Some (EmptyString, s)
    | _ => Some (EmptyString, s)
    end;
  Some (sign +:+ int +:+ frac +:+ exp, s).

(** One JSON value, and what follows it.  [fuel] bounds the number of
    nested calls; [decode] gives enough for the whole input. *)
Fixpoint value (fuel : nat) (s : string) : option (iface * string) :=
  match fuel with
  | O => None
  | S fuel =>
      match skipSpace s with
      | String "{" r =>
          match skipSpace r with
          | String "}" r' => Some (IObject [], r')
          | _ => '(kvs, rest) ← members fuel r; Some (IObject kvs, rest)
          end
      | String "[" r =>
          match skipSpace r with
          | String "]" r' => Some (IArray [], r')
          | _ => '(vs, rest) ← elements fuel r; Some (IArray vs, rest)
          end
      | String "t" (String "r" (String "u" (String "e" r))) => Some (IBool true, r)
      | String "f" (String "a" (String "l" (String "s" (String "e" r)))) =>
          Some (IBool false, r)
      | String "n" (String "u" (String "l" (String "l" r))) => Some (INil, r)
      | String c r as s' =>
          if Ascii.eqb c dquote then
            '(str, rest) ← stringBody r; Some (IString str, rest)
          else
            '(lit, rest) ← number s'; Some (INumber lit, rest)
      | EmptyString => None
      end
  end
with elements (fuel : nat) (s : string) : option (list iface * string) :=
  match fuel with
  | O => None
  | S fuel =>
      '(v, r) ← value fuel s;
      match skipSpace r with
      | String "," r' => '(vs, rest) ← elements fuel r'; Some (v :: vs, rest)
      | String "]" r' => Some ([v], r')
      | _ => None
      end
  end
with members (fuel : nat) (s : string) : option (list (string * iface) * string) :=
  match fuel with
  | O => None
  | S fuel =>
      match skipSpace s with
      | String q r =>
          if Ascii.eqb q dquote then
            '(k, r1) ← stringBody r;
            match skipSpace r1 with
            | String ":" r2 =>
                '(v, r3) ← value fuel r2;
                match skipSpace r3 with
                | String "," r4 =>
                    '(kvs, rest) ← members fuel r4; Some ((k, v) :: kvs, rest)
                | String "}" r4 => Some ([(k, v)], r4)
                | _ => None
                end
            | _ => None
            end
          else None
      | EmptyString => None
      end
  end.

(** The whole input as one JSON value; [None] is a syntax error. *)
Definition decode (data : string) : option iface :=
  '(v, rest) ← value (2 * String.length data + 2) data;
  match skipSpace rest with
  | EmptyString => Some v
  | _ => None
  end.

(** A Go [map[string]interface{}]: [None] is the nil map. *)
Abbreviation gomap := (option (gmap string iface)).

(** Storing the members of an object, in order, into a map. *)
Definition store (members : list (string * iface)) (m : gmap string iface)
  : gmap string iface :=
  fold_left (fun acc kv => <[kv.1 := kv.2]> acc) members m.

(** [json.Unmarshal(data, &m)] for [m] of type [map[string]interface{}]:
    the error if any, and [m] afterwards.  An object is stored into the
    map [m] holds (a new one if [m] is nil), which keeps its other
    entries; [null] sets [m] to nil; any other value and any syntax error
    is an error and leaves [m] as it was. *)
Definition Unmarshal (data : string) (m : gomap) : option string * gomap :=
  match decode data with
  | Some (IObject members) => (None, Some (store members (default ∅ m)))
  | Some INil => (None, None)
  | Some _ => (Some "json: cannot unmarshal into Go value of type map[string]interface {}", m)
  | None => (Some "invalid character", m)
  end.

End Json.

(** ** Package [regexp]: the fragment [k8sContainerRE] is written in *)

Module Regexp.

(** A pattern anchored at the start of the text ([^]): a sequence of
    literal bytes and of greedy repetitions [[^c]+] of one negated byte,
    each inside a capturing group [( )] or a non-capturing one [(?: )]. *)
Inductive node :=
| Lit (c : ascii)
| PlusNot (capture : bool) (c : ascii).

(** A greedy repetition of [[^c]] in front of the rest of the pattern
    [k]: it takes as many bytes as it can and gives them back one at a
    time while [k] fails.  The result is the bytes it keeps and the
    result of [k]. *)
Definition plus (c : ascii) (k : string -> option (list string * string))
  : string -> option (string * (list string * string)) :=
  fix plus (s : string) :=
    match s with
    | String d s' =>
        if Ascii.eqb c d then None
        else
          match plus s' with
          | Some (grp, r) => Some (String d grp, r)
          | None =>
              match k s' with
              | Some r => Some (String d EmptyString, r)
              | None => None
              end
          end
    | EmptyString => None
    end.

(** Leftmost-first matching by backtracking.  The result is the captured
    groups and the text after the match. *)
Fixpoint run (re : list node) (s : string) : option (list string * string) :=
  match re with
  | [] => Some ([], s)
  | Lit c :: re' =>
      match s with
      | String d s' => if Ascii.eqb c d then run re' s' else None
      | EmptyString => None
      end
  | PlusNot capture c :: re' =>
      match plus c (run re') s with
      | Some (grp, (groups, rest)) =>
          Some (if capture then grp :: groups else groups, rest)
      | None => None
      end
  end.

(** [re.FindStringSubmatch(s)]: the text of the match followed by the
    text of each group, or nil when [s] does not match. *)
Definition FindStringSubmatch (re : list node) (s : string) : list string :=
  match run re s with
  | Some (groups, rest) =>
      substring 0 (String.length s - String.length rest) s :: groups
  | None => []
  end.

End Regexp.

(** ** The world a streamer runs in *)

Inductive Event :=
| EvSyslogDial (network raddr : string) (priority : Z) (tag : string)
    (writer : option nat)
| EvSyslogMessage (writer : nat) (priority : Z) (tag : string) (msg : string)
    (ok : bool)
| EvResolveUDPAddr (network addr : string) (ok : bool)
| EvDialUDP (network raddr : string) (conn : option nat)
| EvDatagram (conn : nat) (payload : iface) (ok : bool)
| EvClose (conn : nat)
| EvIndexerStart (domain : string) (port : option string)
| EvIndexerStop
| EvIndex (index type_ id ttl : string) (date : Time.t)
    (doc : gmap string iface) (refresh : bool)
| EvFatal (context : string).

(** The part of the outside world a run depends on, and what it has done so
    far: [clock n] is what the [n]-th call of [time.Now] returns, [failing n]
    whether the [n]-th call into the network fails, [writers] the syslog
    writers opened so far with their priority and tag, [conns] the number
    of UDP sockets opened, and [trace] the events in the order they
    happened. *)
Record World := {
  clock : nat -> Time.t;
  ticks : nat;
  failing : nat -> bool;
  calls : nat;
  writers : list (Z * string);
  conns : nat;
  trace : list Event
}.

(** How a computation ends: with a value, with the process exited
    ([os.Exit]), or with a run-time panic. *)
Inductive Outcome (A : Type) :=
| Ret (a : A)
| Exit (status : Z)
| Panic (msg : string).
Arguments Ret {A} a.
Arguments Exit {A} status.
Arguments Panic {A} msg.

Definition M (A : Type) : Type := World -> Outcome A * World.

#[global] Instance M_ret : MRet M := fun A a w => (Ret a, w).

#[global] Instance M_bind : MBind M := fun A B f c w =>
  match c w with
  | (Ret a, w') => f a w'
  | (Exit st, w') => (Exit st, w')
  | (Panic msg, w') => (Panic msg, w')
  end.

Definition emit (e : Event) : M unit := fun w =>
  (Ret tt, {| clock := clock w; ticks := ticks w; failing := failing w;
              calls := calls w; writers := writers w; conns := conns w;
              trace := trace w ++ [e] |}).

(** Whether the next call into the network fails. *)
Definition syscall : M bool := fun w =>
  (Ret (failing w (calls w)),
   {| clock := clock w; ticks := ticks w; failing := failing w;
      calls := S (calls w); writers := writers w; conns := conns w;
      trace := trace w |}).

(** [time.Now()] *)
Definition time_Now : M Time.t := fun w =>
  (Ret (clock w (ticks w)),
   {| clock := clock w; ticks := S (ticks w); failing := failing w;
      calls := calls w; writers := writers w; conns := conns w;
      trace := trace w |}).

Definition panic {A} (msg : string) : M A := fun w => (Panic msg, w).

(** [log.Fatal(context+": ", err)]: prints and calls [os.Exit(1)]. *)
Definition log_Fatal {A} (context : string) : M A := fun w =>
  (Exit 1, {| clock := clock w; ticks := ticks w; failing := failing w;
              calls := calls w; writers := writers w; conns := conns w;
              trace := trace w ++ [EvFatal context] |}).

(** [x == nil] for a value that is absent when the call that returns it
    fails. *)
Definition isNil {A} (x : option A) : bool :=
  match x with
  | None => true
  | Some _ => false
  end.

(** [assert(err, context)]; [err] is [true] for a non-nil error. *)
Definition assert (err : bool) (context : string) : M unit :=
  if err then log_Fatal context else mret tt.

(** [for logline := range logstream { body }] with the variables the body
    assigns to as the state [st]. *)
Fixpoint range {S : Type} (logstream : list Log) (st : S)
    (body : S -> Log -> M S) : M S :=
  match logstream with
  | [] => mret st
  | logline :: rest => st' ← body st logline; range rest st' body
  end.

(** [defer d] before [body]: [d] runs when [body] returns or panics, not
    when the process exits. *)
Definition defer {A} (d : M unit) (body : M A) : M A := fun w =>
  match body w with
  | (Ret a, w') => match d w' with
                   | (Ret _, w'') => (Ret a, w'')
                   | (Exit st, w'') => (Exit st, w'')
                   | (Panic msg, w'') => (Panic msg, w'')
                   end
  | (Panic msg, w') => match d w' with
                       | (Ret _, w'') => (Panic msg, w'')
                       | (Exit st, w'') => (Exit st, w'')
                       | (Panic msg', w'') => (Panic msg', w'')
                       end
  | (Exit st, w') => (Exit st, w')
  end.

(** ** Package [log/syslog] *)

Module Syslog.

Definition LOG_INFO : Z := 6.
Definition LOG_USER : Z := Z.shiftl 1 3.
Definition severityMask : Z := 7.

(** [syslog.Dial(network, raddr, priority, tag)]: a new writer, or an
    error. *)
Definition Dial (network raddr : string) (priority : Z) (tag : string)
  : M (option nat) := fun w =>
  let fails := failing w (calls w) in
  let remote := if fails then None else Some (length (writers w)) in
  (Ret remote,
   {| clock := clock w; ticks := ticks w; failing := failing w;
      calls := S (calls w);
      writers := if fails then writers w else writers w ++ [(priority, tag)];
      conns := conns w;
      trace := trace w ++ [EvSyslogDial network raddr priority tag remote] |}).

(** [io.WriteString(remote, data)]: one message at the priority and with
    the tag the writer was opened with; the error is not looked at.
    Writing to a nil writer faults. *)
Definition WriteString (remote : option nat) (data : string) : M unit :=
  match remote with
  | None => panic "invalid memory address or nil pointer dereference"
  | Some h => fun w =>
      match writers w !! h with
      | None => (Panic "unknown writer", w)
      | Some (priority, tag) =>
          (failed ← syscall;
           emit (EvSyslogMessage h priority tag data (negb failed))) w
      end
  end.

End Syslog.

(** ** The route streamers *)

(** The body of the loop of [syslogStreamer] for one record. *)
Definition syslogStep (target : Target) (typestr : string) (_ : unit)
    (logline : Log) : M unit :=
  if negb (accepted typestr logline) then mret tt
  else
    let tag := Name logline +:+ AppendTag target in
    remote ← Syslog.Dial "udp" (Addr target)
               (Z.lor Syslog.LOG_USER Syslog.LOG_INFO) tag;
    assert (isNil remote) "syslog";;
    Syslog.WriteString remote (Data logline).

Definition syslogStreamer (target : Target) (types : list string)
    (logstream : list Log) : M unit :=
  let typestr := typestr_of types in
  range logstream tt (syslogStep target typestr).

(** Modelled from the spec: the JSON shape of a [Log], whose declaration
    and field tags are not in [logspout.go]: an object with [name], [id],
    [image], [type] and [data]. *)
Definition Log_json (logline : Log) : iface :=
  IObject [("name", IString (Name logline)); ("id", IString (ID logline));
           ("image", IString (Image logline)); ("type", IString (Type_ logline));
           ("data", IString (Data logline))].

Module Net.

Definition ResolveUDPAddr (network addr : string) : M bool :=
  failed ← syscall;
  emit (EvResolveUDPAddr network addr (negb failed));;
  mret failed.

Definition DialUDP (network raddr : string) : M (option nat) := fun w =>
  let fails := failing w (calls w) in
  let conn := if fails then None else Some (conns w) in
  (Ret conn,
   {| clock := clock w; ticks := ticks w; failing := failing w;
      calls := S (calls w); writers := writers w;
      conns := if fails then conns w else S (conns w);
      trace := trace w ++ [EvDialUDP network raddr conn] |}).

Definition Close (conn : nat) : M unit := emit (EvClose conn).

(** [json.NewEncoder(conn).Encode(v)]: the encoding of [v] in one [Write]
    on [conn], which on a UDP socket is one datagram; the result is the
    error. *)
Definition Encode (conn : nat) (v : iface) : M bool :=
  failed ← syscall;
  emit (EvDatagram conn v (negb failed));;
  mret failed.

End Net.

(** The body of the loop of [udpStreamer] for one record. *)
Definition udpStep (conn : nat) (typestr : string) (_ : unit)
    (logline : Log) : M unit :=
  if negb (accepted typestr logline) then mret tt
  else _ ← Net.Encode conn (Log_json logline); mret tt.

Definition udpStreamer (target : Target) (types : list string)
    (logstream : list Log) : M unit :=
  let typestr := typestr_of types in
  err ← Net.ResolveUDPAddr "udp" (Addr target);
  assert err "resolve udp failed";;
  conn ← Net.DialUDP "udp" (Addr target);
  assert (isNil conn) "connect udp failed";;
  match conn with
  | None => panic "invalid memory address or nil pointer dereference"
  | Some conn =>
      defer (Net.Close conn) (range logstream tt (udpStep conn typestr))
  end.

(** Modelled from the spec: [K8sContainer], declared outside
    [logspout.go], holds the three names the streamer stores in it. *)
Record K8sContainer := {
  K8sName : string;   (* field [Name] *)
  Pod : string;
  Namespace : string
}.

Definition indexDateStampLayout : string := "2006.01.02".

(** [^(?:[^_]+)_([^\.]+)\.(?:[^_]+)_([^\.]+)\.([^\.]+)] *)
Definition k8sContainerRE : list Regexp.node :=
  [Regexp.PlusNot false "_"; Regexp.Lit "_";
   Regexp.PlusNot true "."; Regexp.Lit ".";
   Regexp.PlusNot false "_"; Regexp.Lit "_";
   Regexp.PlusNot true "."; Regexp.Lit ".";
   Regexp.PlusNot true "."].

(** [m[key] = v]; a run-time panic when [m] is nil. *)
Definition mapassign (m : Json.gomap) (key : string) (v : iface) : M Json.gomap :=
  match m with
  | Some g => mret (Some (<[key := v]> g))
  | None => panic "assignment to entry in nil map"
  end.

(** [_, present := m[key]] *)
Definition present (m : Json.gomap) (key : string) : bool :=
  bool_decide (is_Some (m ≫= (.!! key))).

Module Indexer.

Definition Start (domain : string) (port : option string) : M unit :=
  emit (EvIndexerStart domain port).

Definition Stop : M unit := emit EvIndexerStop.

(** [indexer.Index(index, _type, id, ttl, date, data, refresh)]: the
    document is serialized when it is handed over. *)
Definition Index (index type_ id ttl : string) (date : Time.t)
    (data : Json.gomap) (refresh : bool) : M unit :=
  emit (EvIndex index type_ id ttl date (default ∅ data) refresh).

End Indexer.

(** The body of the loop of [elasticsearchStreamer] for one record;
    [tmpMap] is declared outside the loop and is the state. *)
Definition elasticsearchStep (typestr : string) (tmpMap : Json.gomap)
    (logline : Log) : M Json.gomap :=
  if negb (accepted typestr logline) then mret tmpMap
  else
    let match_ := Regexp.FindStringSubmatch k8sContainerRE (Name logline) in
    let k8sContainer :=
      if (0 <? length match_)%nat
      then {| K8sName := nth 1 match_ EmptyString;
              Pod := nth 2 match_ EmptyString;
              Namespace := nth 3 match_ EmptyString |}
      else {| K8sName := EmptyString; Pod := EmptyString;
              Namespace := EmptyString |} in
    now ← time_Now;
    let index := "logstash-" +:+ Time.Format now indexDateStampLayout in
    let '(err, tmpMap) := Json.Unmarshal (Data logline) tmpMap in
    tmpMap ← match err with
             | Some _ =>
                 mret (Some (<["message" := IString (Data logline)]>
                               {["@timestamp" := ITime now]}))
             | None =>
                 if negb (present tmpMap "@timestamp")
                 then mapassign tmpMap "@timestamp" (ITime now)
                 else mret tmpMap
             end;
    tmpMap ← mapassign tmpMap "container" (IString (Name logline));
    tmpMap ← mapassign tmpMap "image" (IString (Image logline));
    tmpMap ← (if (0 <? String.length (Pod k8sContainer))%nat
              then
                tmpMap ← mapassign tmpMap "k8s_pod" (IString (Pod k8sContainer));
                tmpMap ← mapassign tmpMap "k8s_container"
                           (IString (K8sName k8sContainer));
                mapassign tmpMap "k8s_namespace"
                  (IString (Namespace k8sContainer))
              else mret tmpMap);
    Indexer.Index index "log" EmptyString EmptyString now tmpMap false;;
    mret tmpMap.

Definition elasticsearchStreamer (target : Target) (types : list string)
    (logstream : list Log) : M unit :=
  let typestr := typestr_of types in
  let splitAddr := Strings.Split (Addr target) ":" in
  Indexer.Start (nth 0 splitAddr EmptyString)
    (if (1 <? length splitAddr)%nat then Some (nth 1 splitAddr EmptyString)
     else None);;
  defer Indexer.Stop
    (_ ← range logstream None (elasticsearchStep typestr); mret tt).

(** ** The request-scoped streamer and its colorizer *)

Definition ESC : ascii := "027"%char.

Module Colorizer.

(** [type Colorizer map[string]int] *)
Abbreviation t := (gmap string Z).

(** The escape code of index [i]. *)
Definition code (i : Z) : string :=
  let bright := if 6 <? Z.rem i 14 then EmptyString else "1;" in
  String ESC "[" +:+ bright +:+ "3" +:+ Strings.Itoa (7 - Z.rem i 7) +:+ "m".

(** [c.Get(key)]: the code, and the map afterwards. *)
Definition Get (c : t) (key : string) : string * t :=
  let '(i, c) :=
    match c !! key with
    | Some i => (i, c)
    | None => let n := Z.of_nat (size c) in (n, <[key := n]> c)
    end in
  (code i, c).

End Colorizer.

(** What [httpStreamer] writes for one record: the JSON of the record, the
    bare payload, or the line [fmt.Sprintf] builds from a color code (when
    colors are on), the width the name is padded to, the name and the
    payload. *)
Inductive Written :=
| WJson (v : iface)
| WRaw (data : string)
| WNamed (color : option string) (nameWidth : Z) (name data : string).

(** The query and the header of a request that [httpStreamer] reads. *)
Record Request := {
  query_colors : string;
  query_types : string;
  header_Accept : string;
  header_Upgrade : string
}.

(** The body of the loop of [httpStreamer]; the state is [colors] (the
    map when [usecolor] is set, nil otherwise) and [nameWidth]. *)
Definition httpStep (req : Request) (usejson multi : bool)
    (st : option Colorizer.t * Z) (logline : Log)
    : (option Colorizer.t * Z) * list Written :=
  let '(colors, nameWidth) := st in
  if negb (String.eqb (query_types req) EmptyString) &&
     negb (String.eqb (Type_ logline) (query_types req))
  then (st, [])
  else if usejson then (st, [WJson (Log_json logline)])
  else if multi then
    let nameWidth :=
      if nameWidth <? Z.of_nat (String.length (Name logline))
      then Z.of_nat (String.length (Name logline)) else nameWidth in
    match colors with
    | Some c =>
        let '(color, c) := Colorizer.Get c (Name logline) in
        ((Some c, nameWidth),
         [WNamed (Some color) nameWidth (Name logline) (Data logline)])
    | None =>
        ((None, nameWidth),
         [WNamed None nameWidth (Name logline) (Data logline)])
    end
  else (st, [WRaw (Data logline)]).

Fixpoint httpLoop (req : Request) (usejson multi : bool)
    (st : option Colorizer.t * Z) (logstream : list Log) : list Written :=
  match logstream with
  | [] => []
  | logline :: rest =>
      let '(st', out) := httpStep req usejson multi st logline in
      out ++ httpLoop req usejson multi st' rest
  end.

(** [httpStreamer(w, req, logstream, multi)]: the content type, and what
    is written to the response. *)
Definition httpStreamer (req : Request) (logstream : list Log) (multi : bool)
    : string * list Written :=
  let colors :=
    if negb (String.eqb (query_colors req) "off") then Some (∅ : Colorizer.t)
    else None in
  let usejson := String.eqb (header_Accept req) "application/json" in
  (if usejson then "application/json" else "text/plain",
   httpLoop req usejson multi (colors, 16) logstream).

(** ** The handler of [GET /logs] *)

(** Modelled from the spec: [Source], declared outside [logspout.go]: a
    selector by id, by name or by filter, and "all" when it has none. *)
Record Source := {
  SourceID : string;
  SourceName : string;
  SourceFilter : string
}.

Definition Source_All (s : Source) : bool :=
  String.eqb (SourceID s) EmptyString && String.eqb (SourceName s) EmptyString &&
  String.eqb (SourceFilter s) EmptyString.

(** Modelled from the spec: the attach manager, as far as the handler uses
    it: the ids of the attached containers; [Get] tells whether an id is
    among them. *)
Definition AttachManager_Get (attached : gset string) (id : string) : bool :=
  bool_decide (id ∈ attached).

Inductive Streamer :=
| Websocket
| Http (multi : bool).

(** How the handler ends: [http.NotFound], a subscription
    [attacher.Listen(source, logstream, closer)] whose records go to a
    streamer, or a run-time panic. *)
Inductive Served :=
| NotFound
| Listen (source : Source) (to : Streamer)
| Fault (msg : string).

(** [params[key]]: the empty string when [key] is absent. *)
Definition param (params : gmap string string) (key : string) : string :=
  match params !! key with
  | Some v => v
  | None => EmptyString
  end.

Definition logsHandler (attacher : gset string) (req : Request)
    (params : gmap string string) : Served :=
  let predicate := param params "predicate" in
  let value := param params "value" in
  let empty := {| SourceID := EmptyString; SourceName := EmptyString;
                  SourceFilter := EmptyString |} in
  let source :=
    if String.eqb predicate "id" && negb (String.eqb value EmptyString) then
      id ← Strings.slice_to value 12;
      Some {| SourceID := id; SourceName := EmptyString;
              SourceFilter := EmptyString |}
    else if String.eqb predicate "name" && negb (String.eqb value EmptyString) then
      Some {| SourceID := EmptyString; SourceName := value;
              SourceFilter := EmptyString |}
    else if String.eqb predicate "filter" && negb (String.eqb value EmptyString) then
      Some {| SourceID := EmptyString; SourceName := EmptyString;
              SourceFilter := value |}
    else Some empty in
  match source with
  | None => Fault "slice bounds out of range"
  | Some source =>
      if negb (String.eqb (SourceID source) EmptyString) &&
         negb (AttachManager_Get attacher (SourceID source))
      then NotFound
      else if String.eqb (header_Upgrade req) "websocket"
      then Listen source Websocket
      else Listen source
             (Http (Source_All source ||
                    negb (String.eqb (SourceFilter source) EmptyString)))
  end.

(** ** The structured-stream streamer *)

(** [websocketStreamer(w, req, logstream, closer)]: [query_type] is
    [req.URL.Query().Get("type")] and [write_fails n] tells whether the
    [n]-th [conn.Write] returns an error.  The result is the frames handed
    to [conn.Write], each with whether the write succeeded, and whether
    [true] was sent on [closer]. *)
Fixpoint websocketLoop (query_type : string) (write_fails : nat -> bool)
    (n : nat) (logstream : list Log) : list (iface * bool) * bool :=
  match logstream with
  | [] => ([], false)
  | logline :: rest =>
      if negb (String.eqb query_type EmptyString) &&
         negb (String.eqb (Type_ logline) query_type)
      then websocketLoop query_type write_fails n rest
      else if write_fails n
      then ([(Log_json logline, false)], true)
      else
        let '(frames, closed) :=
          websocketLoop query_type write_fails (S n) rest in
        ((Log_json logline, true) :: frames, closed)
  end.

Definition websocketStreamer (query_type : string) (write_fails : nat -> bool)
    (logstream : list Log) : list (iface * bool) * bool :=
  websocketLoop query_type write_fails 0 logstream.

(** ** Options from the environment *)

(** [os.Getenv(name)]: the empty string for a variable that is not set. *)
Definition Getenv (env : gmap string string) (name : string) : string :=
  match env !! name with
  | Some value => value
  | None => EmptyString
  end.

Definition getopt (env : gmap string string) (name dfault : string) : string :=
  let value := Getenv env name in
  if String.eqb value EmptyString then dfault else value.

(** The options [main] starts with. *)
Record Options := {
  debugMode : bool;
  port : string;
  endpoint : string;
  routespath : string
}.

Definition main_options (env : gmap string string) : Options :=
  {| debugMode := negb (String.eqb (getopt env "DEBUG" EmptyString) EmptyString);
     port := getopt env "PORT" "8000";
     endpoint := getopt env "DOCKER_HOST" "unix:///var/run/docker.sock";
     routespath := getopt env "ROUTESPATH" "/var/lib/logspout" |}.

(** * Vocabulary of the statements *)

(** The two stream types of a record. *)
Definition stdtype (t : string) : Prop := t = "stdout" \/ t = "stderr".

(** Unfolds the primitives of [M] and reads the fields of the worlds they
    build. *)
Ltac run_world :=
  cbv beta iota zeta delta
    [mbind M_bind mret M_ret emit syscall time_Now assert isNil panic
     log_Fatal Net.ResolveUDPAddr Net.DialUDP Net.Close Net.Encode
     Syslog.Dial Indexer.Start Indexer.Stop Indexer.Index mapassign defer];
  cbn [clock ticks failing calls writers conns trace].

(** The priority [syslogStreamer] dials with. *)
Definition syslogPriority : Z := Z.lor Syslog.LOG_USER Syslog.LOG_INFO.

(** [k8sContainer] after the match against [k8sContainerRE]. *)
Definition k8sContainerOf (name : string) : K8sContainer :=
  let match_ := Regexp.FindStringSubmatch k8sContainerRE name in
  if (0 <? length match_)%nat
  then {| K8sName := nth 1 match_ EmptyString;
          Pod := nth 2 match_ EmptyString;
          Namespace := nth 3 match_ EmptyString |}
  else {| K8sName := EmptyString; Pod := EmptyString; Namespace := EmptyString |}.

(** [tmpMap] after [json.Unmarshal] and the branch on its error, when
    that branch does not fault. *)
Definition stamped (now : Time.t) (data : string) (tmpMap : Json.gomap)
  : gmap string iface :=
  match Json.decode data with
  | Some (IObject members) =>
      let g := Json.store members (default ∅ tmpMap) in
      match g !! "@timestamp" with
      | Some _ => g
      | None => <["@timestamp" := ITime now]> g
      end
  | _ => <["message" := IString data]> {["@timestamp" := ITime now]}
  end.

(** The document handed to the indexer. *)
Definition document (now : Time.t) (tmpMap : Json.gomap) (logline : Log)
  : gmap string iface :=
  let k8sContainer := k8sContainerOf (Name logline) in
  let d := <["image" := IString (Image logline)]>
             (<["container" := IString (Name logline)]>
                (stamped now (Data logline) tmpMap)) in
  if (0 <? String.length (Pod k8sContainer))%nat
  then <["k8s_namespace" := IString (Namespace k8sContainer)]>
         (<["k8s_container" := IString (K8sName k8sContainer)]>
            (<["k8s_pod" := IString (Pod k8sContainer)]> d))
  else d.

(** The index an instant is filed under. *)
Definition indexName (now : Time.t) : string :=
  "logstash-" +:+ Time.Format now indexDateStampLayout.

(** The byte [c] does not occur in [s]. *)
Fixpoint lacks (c : ascii) (s : string) : bool :=
  match s with
  | EmptyString => true
  | String d s' => negb (Ascii.eqb c d) && lacks c s'
  end.

(** The text stops, or goes on with the byte [c]. *)
Definition stops_at (c : ascii) (s : string) : Prop :=
  s = EmptyString \/ exists r, s = String c r.

(** The datagrams for the records [sent], the first of them at the
    [from]-th call into the network. *)
Definition datagrams (conn : nat) (w : World) (from : nat) (sent : list Log)
  : list Event :=
  imap (fun i logline =>
          EvDatagram conn (Log_json logline) (negb (failing w (from + i)))) sent.

(** ** Sample inputs *)

(** [s] between double quotes. *)
Definition quoted (s : string) : string :=
  String Json.dquote (s +:+ String Json.dquote EmptyString).

(** A world where no call fails; the clock starts on 2014-10-31 06:00:00
    UTC and advances a second per reading. *)
Definition quiet : World :=
  {| clock := fun n => {| Time.unix := 1414735200 + Z.of_nat n;
                          Time.nsec := 0; Time.offset := 0 |};
     ticks := 0; failing := fun _ => false; calls := 0; writers := [];
     conns := 0; trace := [] |}.

(** A world where every call into the network fails. *)
Definition unreachable : World :=
  {| clock := clock quiet; ticks := 0; failing := fun _ => true; calls := 0;
     writers := []; conns := 0; trace := [] |}.

(** A route to a syslog sink, and records for it. *)
Definition sample_target : Target :=
  {| TargetType := "syslog"; Addr := "logs.example:514"; AppendTag := ".prod" |}.

Definition sample_log (name type_ data : string) : Log :=
  {| ID := "0123456789abcdef"; Name := name; Image := "busybox";
     Type_ := type_; Data := data |}.

(** The payload [{"msg":"hi"}]. *)
Definition msg_hi : string := "{" +:+ quoted "msg" +:+ ":" +:+ quoted "hi" +:+ "}".

(** The fields the streamer itself writes after the timestamp. *)
Definition written_keys : list string :=
  ["container"; "image"; "k8s_pod"; "k8s_container"; "k8s_namespace"].

(** A code is bright when it selects bold: [ESC [ 1 ;]. *)
Definition bright (code : string) : bool :=
  Strings.HasPrefix code (String ESC "[1;").

(** Where [name] is first seen in [seen]. *)
Fixpoint index_of (name : string) (seen : list string) : option nat :=
  match seen with
  | [] => None
  | x :: rest =>
      if String.eqb x name then Some O else S <$> index_of name rest
  end.

(** The spec's words, "the next ... on first sight": each name gets the
    number of distinct names seen before it first appeared. *)
Fixpoint first_sight (seen names : list string) : list nat :=
  match names with
  | [] => []
  | name :: rest =>
      match index_of name seen with
      | Some i => i :: first_sight seen rest
      | None => length seen :: first_sight (seen ++ [name]) rest
      end
  end.

(** The color codes of the lines written. *)
Definition colors_of (out : list Written) : list string :=
  omap (fun x => match x with
                 | WNamed (Some color) _ _ _ => Some color
                 | _ => None
                 end) out.

(** The test [httpStreamer] applies to the type of a record. *)
Definition passes (req : Request) (logline : Log) : bool :=
  String.eqb (query_types req) EmptyString ||
  String.eqb (Type_ logline) (query_types req).

(** The colorizer [c] holds the names of [seen], each with its position. *)
Definition holds (c : gmap string Z) (seen : list string) : Prop :=
  size c = length seen /\
  forall name, c !! name = Z.of_nat <$> index_of name seen.

(** A request with colors on, no type filter and a text response. *)
Definition sample_request : Request :=
  {| query_colors := EmptyString; query_types := EmptyString;
     header_Accept := "*/*"; header_Upgrade := EmptyString |}.

(** Days since the Unix epoch on the calendar of the zone of [x], and on
    the UTC calendar. *)
Definition localDay (x : Time.t) : Z := (Time.unix x + Time.offset x) / 86400.
Definition utcDay (x : Time.t) : Z := Time.unix x / 86400.

(** Local civil time from 1970 on, far from the end of the range of
    [int64]. *)
Definition sane (x : Time.t) : Prop :=
  0 <= Time.unix x + Time.offset x < 2 ^ 62.

(** Days from the absolute zero year to the Unix epoch. *)
Definition epochDay : Z := 730692556 * 146097 + 719162.

(** The number a string of digits denotes. *)
Definition digits_value (s : string) : option N :=
  option_map N.of_uint (NilEmpty.uint_of_string s).

(** The text [Format] writes after the year: a dot, the month, a dot, the
    day. *)
Definition monthDayText (year yday : Z) : string :=
  let '(month, day) := Time.monthDay year yday in
  String "." (Time.appendInt month 2 +:+
              String "." (Time.appendInt day 2 +:+ EmptyString)).

(** The days a year can have, counted from 0. *)
Definition ydays : list Z := map Z.of_nat (seq 0 366).

(** A world whose zone is one hour east of UTC; the clock starts on
    2014-10-31 22:30:00 UTC and advances an hour per reading. *)
Definition east : World :=
  {| clock := fun n => {| Time.unix := 1414794600 + 3600 * Z.of_nat n;
                          Time.nsec := 0; Time.offset := 3600 |};
     ticks := 0; failing := fun _ => false; calls := 0; writers := [];
     conns := 0; trace := [] |}.

(** ** Vocabulary of the further properties *)

(** What [syslogStreamer] does for the records [sent]: for each a dial
    that succeeds, the first of them the [from]-th call into the network
    and giving the writer [handle], and one message. *)
Definition syslogEvents (target : Target) (w : World) (handle from : nat)
    (sent : list Log) : list Event :=
  concat
    (imap (fun i logline =>
             [EvSyslogDial "udp" (Addr target) syslogPriority
                (Name logline +:+ AppendTag target) (Some (handle + i)%nat);
              EvSyslogMessage (handle + i)%nat syslogPriority
                (Name logline +:+ AppendTag target) (Data logline)
                (negb (failing w (S (from + 2 * i)%nat)))]) sent).

(** The event closes a connection. *)
Definition isClose (e : Event) : bool :=
  match e with
  | EvClose _ => true
  | _ => false
  end.

(** The index events of a run of the loop of [elasticsearchStreamer] over
    [logstream] that starts at the [tick]-th reading of the clock [clk]
    with the map [tmpMap], and the map it ends with. *)
Fixpoint indexed (typestr : string) (clk : nat -> Time.t) (tick : nat)
    (tmpMap : Json.gomap) (logstream : list Log) : list Event * Json.gomap :=
  match logstream with
  | [] => ([], tmpMap)
  | logline :: rest =>
      if accepted typestr logline then
        let now := clk tick in
        let doc := document now tmpMap logline in
        let '(events, m) := indexed typestr clk (S tick) (Some doc) rest in
        (EvIndex (indexName now) "log" EmptyString EmptyString now doc false
           :: events, m)
      else indexed typestr clk tick tmpMap rest
  end.

(** No accepted record of the stream has the JSON [null] as payload. *)
Definition no_null (typestr : string) (logstream : list Log) : Prop :=
  Forall (fun logline =>
            accepted typestr logline = true ->
            Json.decode (Data logline) <> Some INil) logstream.

(** The value the last member named [key] gives it. *)
Fixpoint assoc_last (members : list (string * iface)) (key : string)
  : option iface :=
  match members with
  | [] => None
  | (k, v) :: rest =>
      match assoc_last rest key with
      | Some v' => Some v'
      | None => if String.eqb k key then Some v else None
      end
  end.

(** The domain and the port [elasticsearchStreamer] takes from an
    address. *)
Definition addrDomain (addr : string) : string := (Strings.cut ":" addr).1.

Definition addrPort (addr : string) : option string :=
  match (Strings.cut ":" addr).2 with
  | Some rest => Some (Strings.cut ":" rest).1
  | None => None
  end.

(** The length of the name of a record, as [len(logline.Name)]. *)
Definition nameLen (logline : Log) : Z :=
  Z.of_nat (String.length (Name logline)).

(** The test [websocketStreamer] applies to the type of a record. *)
Definition wsPasses (query_type : string) (logline : Log) : bool :=
  String.eqb query_type EmptyString || String.eqb (Type_ logline) query_type.

(** * Properties *)

(** ** Slicing and the [/logs] handler *)

Lemma slice_to_short (s : string) (n : nat) :
  (String.length s < n)%nat -> Strings.slice_to s n = None.
Proof.
  revert s; induction n as [|n IH]; intros [|c s] Hlen; simpl in *; try lia.
  - reflexivity.
  - rewrite IH by lia. reflexivity.
Qed.

Lemma slice_to_long (s : string) (n : nat) :
  (n <= String.length s)%nat -> Strings.slice_to s n = Some (substring 0 n s).
Proof.
  revert s; induction n as [|n IH]; intros [|c s] Hlen; simpl in *;
    try lia; try reflexivity.
  rewrite IH by lia. reflexivity.
Qed.

Lemma substring_length_le (s : string) (n : nat) :
  (n <= String.length s)%nat -> String.length (substring 0 n s) = n.
Proof.
  revert s; induction n as [|n IH]; intros [|c s] Hlen; simpl in *;
    try lia; try reflexivity.
  rewrite IH by lia. reflexivity.
Qed.

Lemma eqb_empty_false (s : string) :
  (0 < String.length s)%nat -> String.eqb s EmptyString = false.
Proof. destruct s; simpl; [lia | reflexivity]. Qed.

(** C5: a request [/logs/id:<value>] whose normalized id (the first 12
    bytes of the value) is not attached is answered with 404: the handler
    returns before it subscribes, and it does not fault. *)
Theorem logs_unknown_id_not_found (attacher : gset string) (req : Request)
    (params : gmap string string) (value : string) :
  params !! "predicate" = Some "id" ->
  params !! "value" = Some value ->
  (12 <= String.length value)%nat ->
  AttachManager_Get attacher (substring 0 12 value) = false ->
  logsHandler attacher req params = NotFound.
Proof.
  intros Hp Hv Hlen Hget. unfold logsHandler, param.
  rewrite Hp, Hv.
  rewrite (eqb_empty_false value) by lia.
  rewrite slice_to_long by exact Hlen.
  cbn [String.eqb Ascii.eqb Bool.eqb andb negb mbind option_bind SourceID].
  rewrite Hget, eqb_empty_false by (rewrite substring_length_le; lia).
  reflexivity.
Qed.

Lemma logs_unknown_id_not_found_witness :
  logsHandler {["0123456789ab"]}
    {| query_colors := EmptyString; query_types := EmptyString;
       header_Accept := EmptyString; header_Upgrade := EmptyString |}
    {["predicate" := "id"; "value" := "ffffffffffffffffffff"]} = NotFound.
Proof.
  apply (logs_unknown_id_not_found _ _ _ "ffffffffffffffffffff");
    [reflexivity | reflexivity | simpl; lia | vm_compute; reflexivity].
Defined.

(** C9: the handler slices [params["value"][:12]] whatever the length of
    the value; for a non-empty id value of fewer than 12 bytes the slice is
    out of range and the handler faults; it does not answer 404. *)
Theorem logs_short_id_faults (attacher : gset string) (req : Request)
    (params : gmap string string) (value : string) :
  params !! "predicate" = Some "id" ->
  params !! "value" = Some value ->
  value <> EmptyString ->
  (String.length value < 12)%nat ->
  logsHandler attacher req params = Fault "slice bounds out of range" /\
  logsHandler attacher req params <> NotFound.
Proof.
  intros Hp Hv Hne Hlen.
  assert (logsHandler attacher req params = Fault "slice bounds out of range") as E.
  { unfold logsHandler, param. rewrite Hp, Hv.
    apply String.eqb_neq in Hne. rewrite Hne.
    rewrite slice_to_short by exact Hlen. reflexivity. }
  split; [exact E | rewrite E; discriminate].
Qed.

Lemma logs_short_id_faults_witness :
  logsHandler ∅
    {| query_colors := EmptyString; query_types := EmptyString;
       header_Accept := EmptyString; header_Upgrade := EmptyString |}
    {["predicate" := "id"; "value" := "abc"]} = Fault "slice bounds out of range".
Proof.
  apply (logs_short_id_faults _ _ _ "abc");
    [reflexivity | reflexivity | discriminate | simpl; lia].
Defined.

(** ** Strings *)

Lemma append_cons (c : ascii) (a b : string) :
  String c a +:+ b = String c (a +:+ b).
Proof. reflexivity. Qed.

Lemma append_nil (b : string) : EmptyString +:+ b = b.
Proof. reflexivity. Qed.

Lemma append_nil_r (a : string) : a +:+ EmptyString = a.
Proof.
  induction a as [|x a IH]; [reflexivity |].
  rewrite append_cons, IH. reflexivity.
Qed.

Lemma append_assoc (a b c : string) : (a +:+ b) +:+ c = a +:+ (b +:+ c).
Proof.
  induction a as [|x a IH]; [reflexivity |].
  rewrite !append_cons, IH. reflexivity.
Qed.

Lemma HasPrefix_app (p r : string) : Strings.HasPrefix (p +:+ r) p = true.
Proof.
  induction p as [|c p IH]; [destruct r; reflexivity |].
  rewrite append_cons. simpl. rewrite Ascii.eqb_refl, IH. reflexivity.
Qed.

Lemma HasPrefix_app_l (a b sub : string) :
  Strings.HasPrefix a sub = true -> Strings.HasPrefix (a +:+ b) sub = true.
Proof.
  revert a; induction sub as [|c sub IH]; intros a H.
  - destruct (a +:+ b); reflexivity.
  - destruct a as [|d a]; [discriminate |].
    rewrite append_cons. simpl in *.
    apply andb_true_iff in H as [-> H]. rewrite (IH _ H). reflexivity.
Qed.

Lemma Contains_app_l (a b sub : string) :
  Strings.Contains a sub = true -> Strings.Contains (a +:+ b) sub = true.
Proof.
  induction a as [|c a IH]; intros H.
  - simpl in H. rewrite orb_false_r in H. destruct sub; [|discriminate].
    destruct b; reflexivity.
  - rewrite append_cons. cbn [Strings.Contains] in H.
    apply orb_true_iff in H as [H | H].
    + cbn [Strings.Contains]. rewrite <- append_cons.
      rewrite (HasPrefix_app_l _ _ _ H). reflexivity.
    + cbn [Strings.Contains]. rewrite (IH H). apply orb_true_r.
Qed.

Lemma Contains_app_r (a b sub : string) :
  Strings.Contains b sub = true -> Strings.Contains (a +:+ b) sub = true.
Proof.
  intros H. induction a as [|c a IH]; [exact H |].
  rewrite append_cons. cbn [Strings.Contains]. rewrite IH. apply orb_true_r.
Qed.

Lemma Contains_self_app (p r : string) : Strings.Contains (p +:+ r) p = true.
Proof.
  destruct p as [|c p]; [destruct r; reflexivity |].
  rewrite append_cons. cbn [Strings.Contains]. rewrite <- append_cons.
  rewrite HasPrefix_app. reflexivity.
Qed.

Lemma Contains_Join (types : list string) (t : string) :
  In t types -> Strings.Contains (Strings.Join types ",") t = true.
Proof.
  induction types as [|x rest IH]; intros Hin; [destruct Hin |].
  destruct rest as [|y rest].
  - destruct Hin as [-> | []]. cbn [Strings.Join].
    rewrite <- (append_nil_r t) at 1. apply Contains_self_app.
  - change (Strings.Join (x :: y :: rest) ",")
      with (x +:+ "," +:+ Strings.Join (y :: rest) ",").
    destruct Hin as [-> | Hin]; [apply Contains_self_app |].
    apply Contains_app_r, Contains_app_r, IH, Hin.
Qed.

(** ** The stream-type test *)

Lemma accepted_spec (typestr : string) (logline : Log) :
  accepted typestr logline =
  String.eqb typestr ",," || Strings.Contains typestr (Type_ logline).
Proof.
  unfold accepted.
  destruct (String.eqb typestr ",,"), (Strings.Contains typestr (Type_ logline));
    reflexivity.
Qed.

Lemma accepted_listed (types : list string) (logline : Log) :
  In (Type_ logline) types -> accepted (typestr_of types) logline = true.
Proof.
  intros Hin. rewrite accepted_spec. apply orb_true_iff; right.
  unfold typestr_of. apply Contains_app_r, Contains_app_l, Contains_Join, Hin.
Qed.

Lemma Contains_joined_std (types : list string) (t : string) :
  Forall stdtype types -> stdtype t ->
  Strings.Contains (Strings.Join types "," +:+ ",") t = true -> In t types.
Proof.
  intros Hall Ht. induction Hall as [|x rest Hx Hall IH]; intros H.
  - destruct Ht as [-> | ->]; discriminate H.
  - destruct rest as [|y rest].
    + destruct Hx as [-> | ->], Ht as [-> | ->];
        first [left; reflexivity | discriminate H].
    + change (Strings.Join (x :: y :: rest) "," +:+ ",")
        with ((x +:+ "," +:+ Strings.Join (y :: rest) ",") +:+ ",") in H.
      rewrite append_assoc, append_assoc in H.
      destruct Hx as [-> | ->], Ht as [-> | ->];
        first [left; reflexivity | right; apply IH; exact H].
Qed.

Lemma accepted_std (types : list string) (logline : Log) :
  types <> [] -> Forall stdtype types -> stdtype (Type_ logline) ->
  accepted (typestr_of types) logline = true -> In (Type_ logline) types.
Proof.
  intros Hne Hall Ht. rewrite accepted_spec. intros H.
  apply orb_true_iff in H as [H | H].
  - exfalso. destruct types as [|x [|y rest]]; [congruence | |].
    + inversion Hall as [|? ? Hx _]; subst.
      destruct Hx as [-> | ->]; discriminate H.
    + inversion Hall as [|? ? Hx _]; subst.
      destruct Hx as [-> | ->]; discriminate H.
  - apply Contains_joined_std; [exact Hall | exact Ht |].
    unfold typestr_of in H.
    destruct Ht as [Et | Et]; rewrite Et in *; exact H.
Qed.

(** ** Running the loops *)

Lemma bind_run {A B} (c : M A) (f : A -> M B) (w : World) :
  (c ≫= f) w =
  match c w with
  | (Ret a, w') => f a w'
  | (Exit st, w') => (Exit st, w')
  | (Panic msg, w') => (Panic msg, w')
  end.
Proof. reflexivity. Qed.

Lemma range_cons {S} (logline : Log) (rest : list Log) (st : S)
    (body : S -> Log -> M S) (w : World) :
  range (logline :: rest) st body w =
  match body st logline w with
  | (Ret st', w') => range rest st' body w'
  | (Exit status, w') => (Exit status, w')
  | (Panic msg, w') => (Panic msg, w')
  end.
Proof. reflexivity. Qed.

(** A record that fails the test leaves no trace in any of the loops. *)
Lemma rejected_steps (typestr : string) (logline : Log) :
  accepted typestr logline = false ->
  (forall target, syslogStep target typestr tt logline = mret tt) /\
  (forall conn, udpStep conn typestr tt logline = mret tt) /\
  (forall tmpMap, elasticsearchStep typestr tmpMap logline = mret tmpMap).
Proof.
  intros H. unfold syslogStep, udpStep, elasticsearchStep. rewrite H.
  repeat split; reflexivity.
Qed.

Lemma syslogStep_dialed (target : Target) (typestr : string) (logline : Log)
    (w : World) :
  accepted typestr logline = true ->
  failing w (calls w) = false ->
  syslogStep target typestr tt logline w =
  (Ret tt,
   {| clock := clock w; ticks := ticks w; failing := failing w;
      calls := S (S (calls w));
      writers := writers w ++ [(syslogPriority, Name logline +:+ AppendTag target)];
      conns := conns w;
      trace :=
        (trace w ++
           [EvSyslogDial "udp" (Addr target) syslogPriority
              (Name logline +:+ AppendTag target) (Some (length (writers w)))]) ++
        [EvSyslogMessage (length (writers w)) syslogPriority
           (Name logline +:+ AppendTag target) (Data logline)
           (negb (failing w (S (calls w))))] |}).
Proof.
  intros Hacc Hok. unfold syslogStep. rewrite Hacc. cbn [negb].
  rewrite bind_run. unfold Syslog.Dial. rewrite Hok.
  rewrite bind_run. cbn [assert isNil].
  unfold Syslog.WriteString. cbn.
  rewrite list_lookup_middle by reflexivity. reflexivity.
Qed.

Lemma syslogStep_fatal (target : Target) (typestr : string) (logline : Log)
    (w : World) :
  accepted typestr logline = true ->
  failing w (calls w) = true ->
  syslogStep target typestr tt logline w =
  (Exit 1,
   {| clock := clock w; ticks := ticks w; failing := failing w;
      calls := S (calls w); writers := writers w; conns := conns w;
      trace :=
        (trace w ++
           [EvSyslogDial "udp" (Addr target) syslogPriority
              (Name logline +:+ AppendTag target) None]) ++
        [EvFatal "syslog"] |}).
Proof.
  intros Hacc Hok. unfold syslogStep. rewrite Hacc. cbn [negb].
  rewrite bind_run. unfold Syslog.Dial. rewrite Hok. reflexivity.
Qed.

Lemma udpStep_sent (conn : nat) (typestr : string) (logline : Log) (w : World) :
  accepted typestr logline = true ->
  udpStep conn typestr tt logline w =
  (Ret tt,
   {| clock := clock w; ticks := ticks w; failing := failing w;
      calls := S (calls w); writers := writers w; conns := conns w;
      trace := trace w ++
               [EvDatagram conn (Log_json logline) (negb (failing w (calls w)))] |}).
Proof. intros Hacc. unfold udpStep. rewrite Hacc. reflexivity. Qed.

(** ** The indexing step, as a function of the map it starts from *)

Lemma present_Some (g : gmap string iface) (key : string) :
  present (Some g) key = bool_decide (is_Some (g !! key)).
Proof. reflexivity. Qed.

Lemma elasticsearchStep_indexes (typestr : string) (tmpMap : Json.gomap)
    (logline : Log) (w : World) :
  accepted typestr logline = true ->
  Json.decode (Data logline) <> Some INil ->
  elasticsearchStep typestr tmpMap logline w =
  (Ret (Some (document (clock w (ticks w)) tmpMap logline)),
   {| clock := clock w; ticks := S (ticks w); failing := failing w;
      calls := calls w; writers := writers w; conns := conns w;
      trace := trace w ++
               [EvIndex (indexName (clock w (ticks w))) "log" EmptyString
                  EmptyString (clock w (ticks w))
                  (document (clock w (ticks w)) tmpMap logline) false] |}).
Proof.
  intros Hacc Hnull. unfold elasticsearchStep. rewrite Hacc. cbn [negb].
  fold (k8sContainerOf (Name logline)).
  rewrite bind_run. unfold time_Now at 1.
  unfold document, stamped, Json.Unmarshal.
  destruct (Json.decode (Data logline)) as [[| | | | |members|]|];
    try congruence;
    try (destruct (0 <? String.length (Pod (k8sContainerOf (Name logline))))%nat;
         reflexivity).
  rewrite bind_run, present_Some.
  destruct (Json.store members (default ∅ tmpMap) !! "@timestamp") as [v|] eqn:E.
  - rewrite bool_decide_true by eauto.
    destruct (0 <? String.length (Pod (k8sContainerOf (Name logline))))%nat;
      reflexivity.
  - rewrite bool_decide_false by (intros [? ?]; congruence).
    destruct (0 <? String.length (Pod (k8sContainerOf (Name logline))))%nat;
      reflexivity.
Qed.

Lemma elasticsearchStep_null (typestr : string) (tmpMap : Json.gomap)
    (logline : Log) (w : World) :
  accepted typestr logline = true ->
  Json.decode (Data logline) = Some INil ->
  elasticsearchStep typestr tmpMap logline w =
  (Panic "assignment to entry in nil map",
   {| clock := clock w; ticks := S (ticks w); failing := failing w;
      calls := calls w; writers := writers w; conns := conns w;
      trace := trace w |}).
Proof.
  intros Hacc Hnull. unfold elasticsearchStep. rewrite Hacc. cbn [negb].
  rewrite bind_run. unfold time_Now at 1. unfold Json.Unmarshal.
  rewrite Hnull. reflexivity.
Qed.

(** ** Matching against [k8sContainerRE] *)

Lemma plus_stops (c : ascii) k (s : string) :
  stops_at c s -> Regexp.plus c k s = None.
Proof.
  intros [-> | [r ->]]; [reflexivity |].
  simpl. rewrite Ascii.eqb_refl. reflexivity.
Qed.

(** A repetition in front of a byte it excludes takes the whole run. *)
Lemma plus_complete (c : ascii) k (g s' : string) res :
  lacks c g = true -> g <> EmptyString -> stops_at c s' ->
  k s' = Some res ->
  Regexp.plus c k (g +:+ s') = Some (g, res).
Proof.
  intros Hl Hne Hstop Hk. induction g as [|d g IH]; [congruence |].
  cbn [lacks] in Hl. apply andb_true_iff in Hl as [Hd Hl].
  apply negb_true_iff in Hd.
  rewrite append_cons. cbn [Regexp.plus]. rewrite Hd.
  destruct g as [|e g].
  - rewrite append_nil. rewrite (plus_stops c k s' Hstop), Hk. reflexivity.
  - fold (Regexp.plus c k). rewrite IH by (try exact Hl; discriminate).
    reflexivity.
Qed.

(** What a repetition keeps is a non-empty prefix of the text without the
    byte it excludes, and the rest of the pattern matched what follows. *)
Lemma plus_sound (c : ascii) k (s g : string) res :
  Regexp.plus c k s = Some (g, res) ->
  exists s', s = g +:+ s' /\ g <> EmptyString /\ lacks c g = true /\
             k s' = Some res.
Proof.
  revert g res; induction s as [|d s IH]; intros g res H; [discriminate |].
  cbn [Regexp.plus] in H. fold (Regexp.plus c k) in H.
  destruct (Ascii.eqb c d) eqn:Ed; [discriminate |].
  destruct (Regexp.plus c k s) as [[grp r]|] eqn:E.
  - injection H as <- <-. destruct (IH _ _ eq_refl) as (s' & -> & _ & Hl & Hk).
    exists s'. cbn [lacks]. rewrite Ed, Hl.
    repeat split; [discriminate | exact Hk].
  - destruct (k s) as [r|] eqn:Ek; [|discriminate].
    injection H as <- <-. exists s. cbn [lacks]. rewrite Ed.
    repeat split; [discriminate | exact Ek].
Qed.

Lemma run_lit (c : ascii) (re : list Regexp.node) (s : string) res :
  Regexp.run re s = Some res ->
  Regexp.run (Regexp.Lit c :: re) (String c s) = Some res.
Proof. intros H. cbn [Regexp.run]. rewrite Ascii.eqb_refl. exact H. Qed.

Lemma run_plus (capture : bool) (c : ascii) (re : list Regexp.node)
    (g s' : string) groups rest :
  lacks c g = true -> g <> EmptyString -> stops_at c s' ->
  Regexp.run re s' = Some (groups, rest) ->
  Regexp.run (Regexp.PlusNot capture c :: re) (g +:+ s') =
  Some (if capture then g :: groups else groups, rest).
Proof.
  intros Hl Hne Hstop Hk. cbn [Regexp.run].
  rewrite (plus_complete c _ g s' _ Hl Hne Hstop Hk). reflexivity.
Qed.

(** A name made of the five parts [k8sContainerRE] looks for, separated
    the way it wants them, yields the three it captures. *)
Lemma k8sContainerRE_parts (a c h p n rest : string) :
  lacks "_" a = true -> a <> EmptyString ->
  lacks "." c = true -> c <> EmptyString ->
  lacks "_" h = true -> h <> EmptyString ->
  lacks "." p = true -> p <> EmptyString ->
  lacks "." n = true -> n <> EmptyString ->
  stops_at "." rest ->
  Regexp.run k8sContainerRE
    (a +:+ String "_" (c +:+ String "." (h +:+ String "_"
       (p +:+ String "." (n +:+ rest))))) = Some ([c; p; n], rest).
Proof.
  intros Ha Ha' Hc Hc' Hh Hh' Hp Hp' Hn Hn' Hrest. unfold k8sContainerRE.
  apply (run_plus false); [assumption | assumption | right; eauto |].
  apply run_lit.
  apply (run_plus true); [assumption | assumption | right; eauto |].
  apply run_lit.
  apply (run_plus false); [assumption | assumption | right; eauto |].
  apply run_lit.
  apply (run_plus true); [assumption | assumption | right; eauto |].
  apply run_lit.
  apply (run_plus true); [assumption | assumption | assumption |].
  reflexivity.
Qed.

Lemma k8sContainerOf_parts (a c h p n rest : string) :
  lacks "_" a = true -> a <> EmptyString ->
  lacks "." c = true -> c <> EmptyString ->
  lacks "_" h = true -> h <> EmptyString ->
  lacks "." p = true -> p <> EmptyString ->
  lacks "." n = true -> n <> EmptyString ->
  stops_at "." rest ->
  k8sContainerOf (a +:+ String "_" (c +:+ String "." (h +:+ String "_"
                    (p +:+ String "." (n +:+ rest))))) =
  {| K8sName := c; Pod := p; Namespace := n |}.
Proof.
  intros. unfold k8sContainerOf, Regexp.FindStringSubmatch.
  rewrite k8sContainerRE_parts by assumption. reflexivity.
Qed.

Lemma run_lit_inv (c : ascii) (re : list Regexp.node) (s : string) res :
  Regexp.run (Regexp.Lit c :: re) s = Some res ->
  exists s', s = String c s' /\ Regexp.run re s' = Some res.
Proof.
  cbn [Regexp.run]. destruct s as [|d s]; [discriminate |].
  destruct (Ascii.eqb c d) eqn:E; [|discriminate].
  apply Ascii.eqb_eq in E as ->. eauto.
Qed.

Lemma run_plus_inv (capture : bool) (c : ascii) (re : list Regexp.node)
    (s : string) groups rest :
  Regexp.run (Regexp.PlusNot capture c :: re) s = Some (groups, rest) ->
  exists g s' groups',
    s = g +:+ s' /\ g <> EmptyString /\ lacks c g = true /\
    Regexp.run re s' = Some (groups', rest) /\
    groups = if capture then g :: groups' else groups'.
Proof.
  cbn [Regexp.run].
  destruct (Regexp.plus c (Regexp.run re) s) as [[g [groups' rest']]|] eqn:E;
    [|discriminate].
  intros H. injection H as <- <-.
  destruct (plus_sound _ _ _ _ _ E) as (s' & -> & Hne & Hl & Hk).
  exists g, s', groups'. repeat split; assumption.
Qed.

(** Every match of [k8sContainerRE] has that shape. *)
Lemma k8sContainerRE_sound (name : string) groups rest :
  Regexp.run k8sContainerRE name = Some (groups, rest) ->
  exists a c h p n,
    groups = [c; p; n] /\
    name = a +:+ String "_" (c +:+ String "." (h +:+ String "_"
             (p +:+ String "." (n +:+ rest)))) /\
    lacks "_" a = true /\ lacks "." c = true /\ lacks "_" h = true /\
    lacks "." p = true /\ lacks "." n = true.
Proof.
  unfold k8sContainerRE. intros H.
  apply run_plus_inv in H as (a & s1 & g1 & -> & _ & Ha & H & ->).
  apply run_lit_inv in H as (s2 & -> & H).
  apply run_plus_inv in H as (c & s3 & g2 & -> & _ & Hc & H & ->).
  apply run_lit_inv in H as (s4 & -> & H).
  apply run_plus_inv in H as (h & s5 & g3 & -> & _ & Hh & H & ->).
  apply run_lit_inv in H as (s6 & -> & H).
  apply run_plus_inv in H as (p & s7 & g4 & -> & _ & Hp & H & ->).
  apply run_lit_inv in H as (s8 & -> & H).
  apply run_plus_inv in H as (n & s9 & g5 & -> & _ & Hn & H & ->).
  cbn [Regexp.run] in H. injection H as <- <-.
  exists a, c, h, p, n. repeat split; assumption.
Qed.

(** Where a run without [c] ends in front of a [c] is determined by the
    text. *)
Lemma split_at_first (c : ascii) (g1 g2 s1 s2 : string) :
  lacks c g1 = true -> lacks c g2 = true ->
  g1 +:+ String c s1 = g2 +:+ String c s2 -> g1 = g2 /\ s1 = s2.
Proof.
  revert g2; induction g1 as [|d g1 IH]; intros [|e g2] H1 H2 E;
    rewrite ?append_cons, ?append_nil in E.
  - injection E as ->. split; reflexivity.
  - injection E as <- _. cbn [lacks] in H2.
    rewrite Ascii.eqb_refl in H2. discriminate.
  - injection E as -> _. cbn [lacks] in H1.
    rewrite Ascii.eqb_refl in H1. discriminate.
  - injection E as -> E. cbn [lacks] in H1, H2.
    apply andb_true_iff in H1 as [_ H1]. apply andb_true_iff in H2 as [_ H2].
    destruct (IH _ H1 H2 E) as [-> ->]. split; reflexivity.
Qed.

(** With underscores where the pattern wants dots, the pod is never
    [mypod]. *)
Lemma k8sContainerOf_underscores (rest : string) :
  Pod (k8sContainerOf ("k8s_myapp.0_mypod_myns_" +:+ rest)) <> "mypod".
Proof.
  unfold k8sContainerOf, Regexp.FindStringSubmatch.
  destruct (Regexp.run k8sContainerRE ("k8s_myapp.0_mypod_myns_" +:+ rest))
    as [[groups rest']|] eqn:E; [|discriminate].
  apply k8sContainerRE_sound in E
    as (a & c & h & p & n & -> & E & Ha & Hc & Hh & Hp & Hn).
  cbn [length Nat.ltb Nat.leb nth Pod]. intros ->.
  change ("k8s_myapp.0_mypod_myns_" +:+ rest)
    with ("k8s" +:+ String "_" ("myapp.0_mypod_myns_" +:+ rest)) in E.
  apply split_at_first in E as [<- E]; [|reflexivity | exact Ha].
  change ("myapp.0_mypod_myns_" +:+ rest)
    with ("myapp" +:+ String "." ("0_mypod_myns_" +:+ rest)) in E.
  apply split_at_first in E as [<- E]; [|reflexivity | exact Hc].
  change ("0_mypod_myns_" +:+ rest)
    with ("0" +:+ String "_" ("mypod_myns_" +:+ rest)) in E.
  apply split_at_first in E as [<- E]; [|reflexivity | exact Hh].
  discriminate E.
Qed.

(** ** The UDP loop *)

Lemma datagrams_cons (conn : nat) (w : World) (from : nat) (logline : Log)
    (sent : list Log) :
  datagrams conn w from (logline :: sent) =
  EvDatagram conn (Log_json logline) (negb (failing w from)) ::
  datagrams conn w (S from) sent.
Proof.
  unfold datagrams. rewrite imap_cons, Nat.add_0_r. f_equal.
  apply imap_ext. intros i x _. simpl. rewrite Nat.add_succ_r. reflexivity.
Qed.

Lemma udp_loop (conn : nat) (typestr : string) (logstream : list Log)
    (w : World) :
  range logstream tt (udpStep conn typestr) w =
  (Ret tt,
   {| clock := clock w; ticks := ticks w; failing := failing w;
      calls := calls w + length (List.filter (accepted typestr) logstream);
      writers := writers w; conns := conns w;
      trace := trace w ++
               datagrams conn w (calls w)
                 (List.filter (accepted typestr) logstream) |}).
Proof.
  revert w; induction logstream as [|logline rest IH]; intros w.
  - cbn. rewrite Nat.add_0_r, app_nil_r. destruct w; reflexivity.
  - rewrite range_cons. cbn [List.filter].
    destruct (accepted typestr logline) eqn:Hacc.
    + rewrite udpStep_sent by exact Hacc. rewrite IH. cbn [calls trace failing
        clock ticks writers conns length].
      rewrite datagrams_cons, <- app_assoc, Nat.add_succ_r. reflexivity.
    + destruct (rejected_steps typestr logline Hacc) as (_ & Hudp & _).
      rewrite Hudp. apply IH.
Qed.

(** ** C3: which records a route streamer forwards *)

(** C3, as the spec states it, fails: with the one-element list [[""]]
    the list is not empty and does not hold [stdout], yet a [stdout] record
    is forwarded; with [["xstderr"]] a [stderr] record is forwarded though
    [stderr] is not in the list. *)
Lemma type_filter_counterexample :
  (accepted (typestr_of [EmptyString]) (sample_log "web-1" "stdout" "x") = true /\
   ~ In "stdout" [EmptyString]) /\
  (accepted (typestr_of ["xstderr"]) (sample_log "web-1" "stderr" "x") = true /\
   ~ In "stderr" ["xstderr"]) /\
  exists w,
    udpStep 0 (typestr_of [EmptyString]) tt (sample_log "web-1" "stdout" "x") quiet
    = (Ret tt, w) /\
    trace w = [EvDatagram 0 (Log_json (sample_log "web-1" "stdout" "x")) true].
Proof.
  split; [split; [reflexivity | intros [H | []]; discriminate H] |].
  split; [split; [reflexivity | intros [H | []]; discriminate H] |].
  eexists. split; reflexivity.
Qed.

(** C3 (amended): in each of the three route streamers a record that fails
    the test has no effect and a record that passes it is handed to the
    sink (a dial for it, one datagram, one indexed document unless its
    payload is the JSON [null]).  The test passes exactly when the joined
    list between commas is [",,"] or contains the record's type as a
    substring; so an empty list forwards every record, a listed type is
    always forwarded, and when the entries of a non-empty list and the type
    are each [stdout] or [stderr], the forwarded records are exactly those
    whose type is in the list. *)
Theorem route_type_filter (target : Target) (types : list string)
    (logline : Log) (tmpMap : Json.gomap) (conn : nat) (w : World) :
  let typestr := typestr_of types in
  (accepted typestr logline = false ->
     syslogStep target typestr tt logline w = (Ret tt, w) /\
     udpStep conn typestr tt logline w = (Ret tt, w) /\
     elasticsearchStep typestr tmpMap logline w = (Ret tmpMap, w)) /\
  (accepted typestr logline = true ->
     (exists remote rest,
        trace (syslogStep target typestr tt logline w).2 =
        trace w ++ EvSyslogDial "udp" (Addr target) syslogPriority
                     (Name logline +:+ AppendTag target) remote :: rest) /\
     (exists ok,
        trace (udpStep conn typestr tt logline w).2 =
        trace w ++ [EvDatagram conn (Log_json logline) ok]) /\
     (Json.decode (Data logline) <> Some INil ->
      exists index doc,
        trace (elasticsearchStep typestr tmpMap logline w).2 =
        trace w ++ [EvIndex index "log" EmptyString EmptyString
                      (clock w (ticks w)) doc false])) /\
  (accepted typestr logline = true <->
     typestr = ",," \/ Strings.Contains typestr (Type_ logline) = true) /\
  (types = [] -> accepted typestr logline = true) /\
  (In (Type_ logline) types -> accepted typestr logline = true) /\
  (types <> [] -> Forall stdtype types -> stdtype (Type_ logline) ->
     (accepted typestr logline = true <-> In (Type_ logline) types)).
Proof.
  intros typestr. repeat split.
  - destruct (rejected_steps typestr logline H) as (E & _ & _). rewrite E.
    reflexivity.
  - destruct (rejected_steps typestr logline H) as (_ & E & _). rewrite E.
    reflexivity.
  - destruct (rejected_steps typestr logline H) as (_ & _ & E). rewrite E.
    reflexivity.
  - destruct (failing w (calls w)) eqn:Hf.
    + rewrite syslogStep_fatal by assumption. cbn [snd trace].
      rewrite <- app_assoc. eauto.
    + rewrite syslogStep_dialed by assumption. cbn [snd trace].
      rewrite <- app_assoc. eauto.
  - rewrite udpStep_sent by assumption. eauto.
  - intros Hnull. rewrite elasticsearchStep_indexes by assumption. eauto.
  - rewrite accepted_spec. intros H. apply orb_true_iff in H as [H | H];
      [left; apply String.eqb_eq, H | right; exact H].
  - rewrite accepted_spec. intros [H | H]; apply orb_true_iff;
      [left; apply String.eqb_eq, H | right; exact H].
  - intros ->. reflexivity.
  - apply accepted_listed.
  - apply accepted_std; assumption.
  - apply accepted_listed.
Qed.

Lemma route_type_filter_witness :
  accepted (typestr_of ["stderr"]) (sample_log "web-1" "stdout" "x") = false /\
  syslogStep sample_target (typestr_of ["stderr"]) tt
    (sample_log "web-1" "stdout" "x") quiet = (Ret tt, quiet) /\
  In "stderr" ["stdout"; "stderr"] /\
  accepted (typestr_of ["stdout"; "stderr"]) (sample_log "web-1" "stderr" "x") = true.
Proof.
  pose proof (route_type_filter sample_target ["stderr"]
                (sample_log "web-1" "stdout" "x") None 0%nat quiet) as H1.
  pose proof (route_type_filter sample_target ["stdout"; "stderr"]
                (sample_log "web-1" "stderr" "x") None 0%nat quiet) as H2.
  cbv zeta in H1, H2.
  destruct H1 as (Hrej & _). destruct H2 as (_ & _ & _ & _ & _ & Hstd).
  assert (accepted (typestr_of ["stderr"]) (sample_log "web-1" "stdout" "x") = false)
    as Hf by reflexivity.
  assert (In "stderr" ["stdout"; "stderr"]) as Hin by (right; left; reflexivity).
  split; [exact Hf |]. split; [exact (proj1 (Hrej Hf)) |]. split; [exact Hin |].
  assert (Forall stdtype ["stdout"; "stderr"]) as Hall.
  { constructor; [left; reflexivity |].
    constructor; [right; reflexivity | constructor]. }
  apply (Hstd ltac:(discriminate) Hall (or_intror eq_refl)), Hin.
Defined.

(** ** C4: the syslog streamer *)

(** C4: for a record the syslog streamer accepts it dials anew, over UDP,
    with the tag [Name + AppendTag] and the priority [LOG_USER|LOG_INFO],
    whose severity is INFO.  When the dial succeeds the writer is a new
    one, the payload is written to it as one message at that priority, and
    the loop goes on with the next record whatever the write returned.
    When the dial fails the process exits with status 1 ([log.Fatal]) and
    no later record is looked at. *)
Theorem syslog_dial_per_record (target : Target) (types : list string)
    (logline : Log) (rest : list Log) (w : World) :
  accepted (typestr_of types) logline = true ->
  let tag := Name logline +:+ AppendTag target in
  Z.land syslogPriority Syslog.severityMask = Syslog.LOG_INFO /\
  (failing w (calls w) = false ->
   exists ok w',
     syslogStep target (typestr_of types) tt logline w = (Ret tt, w') /\
     writers w' = writers w ++ [(syslogPriority, tag)] /\
     trace w' =
       trace w ++
       [EvSyslogDial "udp" (Addr target) syslogPriority tag
          (Some (length (writers w)));
        EvSyslogMessage (length (writers w)) syslogPriority tag
          (Data logline) ok] /\
     syslogStreamer target types (logline :: rest) w =
     syslogStreamer target types rest w') /\
  (failing w (calls w) = true ->
   exists w',
     syslogStreamer target types (logline :: rest) w = (Exit 1, w') /\
     trace w' =
       trace w ++
       [EvSyslogDial "udp" (Addr target) syslogPriority tag None;
        EvFatal "syslog"]).
Proof.
  intros Hacc tag. split; [reflexivity |]. split; intros Hf.
  - eexists _, _. split; [apply syslogStep_dialed; assumption |].
    cbn [writers trace]. split; [reflexivity |].
    split; [rewrite <- app_assoc; reflexivity |].
    unfold syslogStreamer. rewrite range_cons, syslogStep_dialed by assumption.
    reflexivity.
  - eexists. unfold syslogStreamer.
    rewrite range_cons, syslogStep_fatal by assumption.
    split; [reflexivity |]. cbn [trace]. rewrite <- app_assoc. reflexivity.
Qed.

Lemma syslog_dial_per_record_witness :
  (exists w',
     syslogStep sample_target (typestr_of []) tt
       (sample_log "web-1" "stdout" "started") quiet = (Ret tt, w') /\
     trace w' =
       [EvSyslogDial "udp" "logs.example:514" 14 "web-1.prod" (Some 0%nat);
        EvSyslogMessage 0 14 "web-1.prod" "started" true]) /\
  (exists w',
     syslogStreamer sample_target []
       [sample_log "web-1" "stdout" "started"; sample_log "web-2" "stdout" "x"]
       unreachable = (Exit 1, w') /\
     trace w' =
       [EvSyslogDial "udp" "logs.example:514" 14 "web-1.prod" None;
        EvFatal "syslog"]).
Proof.
  split.
  - destruct (syslog_dial_per_record sample_target []
                (sample_log "web-1" "stdout" "started") [] quiet eq_refl)
      as (_ & Hok & _).
    destruct (Hok eq_refl) as (ok & w' & Hstep & _ & Htrace & _).
    exists w'. split; [exact Hstep |].
    apply (f_equal snd) in Hstep. cbn [snd] in Hstep. rewrite <- Hstep.
    reflexivity.
  - destruct (syslog_dial_per_record sample_target []
                (sample_log "web-1" "stdout" "started")
                [sample_log "web-2" "stdout" "x"] unreachable eq_refl)
      as (_ & _ & Hfail).
    destruct (Hfail eq_refl) as (w' & Hrun & Htrace).
    exists w'. split; [exact Hrun | exact Htrace].
Defined.

(** ** C6: the UDP streamer *)

(** C6: when the address resolves and the socket opens, the UDP streamer
    opens that one socket before it reads a record, sends on it one
    datagram with the JSON of each accepted record, in order, and closes
    it when the stream ends.  Whether a send fails changes only the result
    of that send: the streamer still returns normally after the last
    record, with nothing else in its trace. *)
Theorem udp_one_socket (target : Target) (types : list string)
    (logstream : list Log) (w : World) :
  failing w (calls w) = false ->
  failing w (S (calls w)) = false ->
  exists w',
    udpStreamer target types logstream w = (Ret tt, w') /\
    conns w' = S (conns w) /\
    trace w' =
      trace w ++
      [EvResolveUDPAddr "udp" (Addr target) true;
       EvDialUDP "udp" (Addr target) (Some (conns w))] ++
      imap (fun i logline =>
              EvDatagram (conns w) (Log_json logline)
                (negb (failing w (S (S (calls w)) + i))))
        (List.filter (accepted (typestr_of types)) logstream) ++
      [EvClose (conns w)].
Proof.
  intros Hresolve Hdial. eexists. unfold udpStreamer. run_world.
  rewrite Hresolve. run_world. rewrite Hdial. run_world.
  rewrite udp_loop. run_world.
  split; [reflexivity |]. split; [reflexivity |].
  unfold datagrams. rewrite <- !app_assoc. reflexivity.
Qed.

Lemma udp_one_socket_witness :
  exists w',
    udpStreamer sample_target ["stderr"]
      [sample_log "web-1" "stderr" "a"; sample_log "web-1" "stdout" "b";
       sample_log "web-2" "stderr" "c"]
      {| clock := clock quiet; ticks := 0;
         failing := fun n => (1 <? n)%nat; calls := 0; writers := [];
         conns := 0; trace := [] |} = (Ret tt, w') /\
    trace w' =
      [EvResolveUDPAddr "udp" "logs.example:514" true;
       EvDialUDP "udp" "logs.example:514" (Some 0%nat);
       EvDatagram 0 (Log_json (sample_log "web-1" "stderr" "a")) false;
       EvDatagram 0 (Log_json (sample_log "web-2" "stderr" "c")) false;
       EvClose 0].
Proof.
  destruct (udp_one_socket sample_target ["stderr"]
              [sample_log "web-1" "stderr" "a"; sample_log "web-1" "stdout" "b";
               sample_log "web-2" "stderr" "c"]
              {| clock := clock quiet; ticks := 0;
                 failing := fun n => (1 <? n)%nat; calls := 0; writers := [];
                 conns := 0; trace := [] |} eq_refl eq_refl)
    as (w' & Hrun & _ & Htrace).
  exists w'. split; [exact Hrun | exact Htrace].
Defined.

(** ** What the indexed document holds *)

Lemma store_lookup_notin (members : list (string * iface))
    (m : gmap string iface) (key : string) :
  (forall v, ~ In (key, v) members) ->
  Json.store members m !! key = m !! key.
Proof.
  revert m; induction members as [|[k v] members IH]; intros m Hnot;
    [reflexivity |].
  unfold Json.store in *. cbn [fold_left fst snd].
  rewrite IH by (intros v' Hin; apply (Hnot v'); right; exact Hin).
  apply lookup_insert_ne. intros ->. apply (Hnot v). left. reflexivity.
Qed.

Lemma store_is_Some (members : list (string * iface))
    (m : gmap string iface) (key : string) :
  is_Some (m !! key) -> is_Some (Json.store members m !! key).
Proof.
  revert m; induction members as [|[k v] members IH]; intros m Hm;
    [exact Hm |].
  unfold Json.store in *. cbn [fold_left fst snd]. apply IH.
  destruct (decide (k = key)) as [-> | Hne].
  - rewrite lookup_insert_eq. eauto.
  - rewrite lookup_insert_ne by exact Hne. exact Hm.
Qed.

Lemma stamped_object (now : Time.t) (data : string) (tmpMap : Json.gomap)
    (members : list (string * iface)) (key : string) :
  Json.decode data = Some (IObject members) ->
  key <> "@timestamp" ->
  stamped now data tmpMap !! key =
  Json.store members (default ∅ tmpMap) !! key.
Proof.
  intros Hdec Hne. unfold stamped. rewrite Hdec.
  destruct (Json.store members (default ∅ tmpMap) !! "@timestamp");
    [reflexivity |].
  apply lookup_insert_ne. congruence.
Qed.

Lemma stamped_is_Some (now : Time.t) (data : string)
    (prev : gmap string iface) (members : list (string * iface))
    (key : string) :
  Json.decode data = Some (IObject members) ->
  is_Some (prev !! key) -> is_Some (stamped now data (Some prev) !! key).
Proof.
  intros Hdec Hprev. unfold stamped. rewrite Hdec.
  change (default ∅ (Some prev)) with prev.
  pose proof (store_is_Some members prev key Hprev) as Hs.
  destruct (Json.store members prev !! "@timestamp") eqn:E; [exact Hs |].
  destruct (decide (key = "@timestamp")) as [-> | Hne].
  - rewrite E in Hs. destruct Hs; discriminate.
  - rewrite lookup_insert_ne by congruence. exact Hs.
Qed.

Lemma stamped_keeps (now : Time.t) (data : string)
    (prev : gmap string iface) (members : list (string * iface))
    (key : string) (v : iface) :
  Json.decode data = Some (IObject members) ->
  prev !! key = Some v -> (forall v', ~ In (key, v') members) ->
  stamped now data (Some prev) !! key = Some v.
Proof.
  intros Hdec Hprev Hnot. unfold stamped. rewrite Hdec.
  change (default ∅ (Some prev)) with prev.
  assert (Json.store members prev !! key = Some v) as Hs
    by (rewrite store_lookup_notin by exact Hnot; exact Hprev).
  destruct (Json.store members prev !! "@timestamp") eqn:E; [exact Hs |].
  destruct (decide (key = "@timestamp")) as [-> | Hne]; [congruence |].
  rewrite lookup_insert_ne by congruence. exact Hs.
Qed.

Lemma stamped_wrapped (now : Time.t) (data : string) (tmpMap : Json.gomap) :
  (forall members, Json.decode data <> Some (IObject members)) ->
  stamped now data tmpMap =
  <["message" := IString data]> {["@timestamp" := ITime now]}.
Proof.
  intros Hdec. unfold stamped.
  destruct (Json.decode data) as [[| | | | |members|]|]; try reflexivity.
  destruct (Hdec members eq_refl).
Qed.

Lemma document_other (now : Time.t) (tmpMap : Json.gomap) (logline : Log)
    (key : string) :
  ~ In key written_keys ->
  document now tmpMap logline !! key = stamped now (Data logline) tmpMap !! key.
Proof.
  intros Hnot. unfold document.
  assert (key <> "container" /\ key <> "image" /\ key <> "k8s_pod" /\
          key <> "k8s_container" /\ key <> "k8s_namespace")
    as (H1 & H2 & H3 & H4 & H5)
    by (repeat split; intros ->; apply Hnot; cbn; tauto).
  destruct (0 <? String.length (Pod (k8sContainerOf (Name logline))))%nat;
    rewrite ?lookup_insert_ne by congruence; reflexivity.
Qed.

Lemma document_is_Some (now : Time.t) (tmpMap : Json.gomap) (logline : Log)
    (key : string) :
  is_Some (stamped now (Data logline) tmpMap !! key) ->
  is_Some (document now tmpMap logline !! key).
Proof.
  intros H. unfold document.
  destruct (0 <? String.length (Pod (k8sContainerOf (Name logline))))%nat;
    repeat (rewrite lookup_insert; case_decide; [eauto |]); exact H.
Qed.

Lemma document_enriched (now : Time.t) (tmpMap : Json.gomap) (logline : Log)
    (c p n : string) :
  k8sContainerOf (Name logline) = {| K8sName := c; Pod := p; Namespace := n |} ->
  p <> EmptyString ->
  document now tmpMap logline !! "k8s_container" = Some (IString c) /\
  document now tmpMap logline !! "k8s_pod" = Some (IString p) /\
  document now tmpMap logline !! "k8s_namespace" = Some (IString n).
Proof.
  intros Hk Hp. unfold document. rewrite Hk. cbn [Pod K8sName Namespace].
  destruct p as [|x p]; [congruence |]. cbn [String.length Nat.ltb Nat.leb].
  repeat split.
  - rewrite lookup_insert_ne by discriminate. apply lookup_insert_eq.
  - rewrite !lookup_insert_ne by discriminate. apply lookup_insert_eq.
  - apply lookup_insert_eq.
Qed.

Lemma document_plain (now : Time.t) (tmpMap : Json.gomap) (logline : Log) :
  Pod (k8sContainerOf (Name logline)) = EmptyString ->
  document now tmpMap logline =
  <["image" := IString (Image logline)]>
    (<["container" := IString (Name logline)]>
       (stamped now (Data logline) tmpMap)).
Proof. intros Hk. unfold document. rewrite Hk. reflexivity. Qed.

(** ** C1: enrichment from the container name *)

(** C1, as the spec states it, fails: the name of its example has
    underscores where [k8sContainerRE] wants dots.  A first record named
    [k8s_myapp.0_mypod_myns_abc123] does not match and is indexed without
    any [k8s_*] field; [k8s_myapp.0_mypod_myns_a.b] matches with the pod
    [mypod_myns_a] and the namespace [b]. *)
Lemma k8s_underscore_name_counterexample :
  (exists doc w',
     elasticsearchStep (typestr_of []) None
       (sample_log "k8s_myapp.0_mypod_myns_abc123" "stdout" msg_hi) quiet
     = (Ret (Some doc), w') /\
     trace w' = [EvIndex "logstash-2014.10.31" "log" EmptyString EmptyString
                   (clock quiet 0) doc false] /\
     doc !! "k8s_container" = None /\ doc !! "k8s_pod" = None /\
     doc !! "k8s_namespace" = None) /\
  (exists doc w',
     elasticsearchStep (typestr_of []) None
       (sample_log "k8s_myapp.0_mypod_myns_a.b" "stdout" msg_hi) quiet
     = (Ret (Some doc), w') /\
     trace w' = [EvIndex "logstash-2014.10.31" "log" EmptyString EmptyString
                   (clock quiet 0) doc false] /\
     doc !! "k8s_pod" = Some (IString "mypod_myns_a") /\
     doc !! "k8s_namespace" = Some (IString "b")).
Proof.
  split.
  - rewrite elasticsearchStep_indexes by (vm_compute; congruence).
    eexists _, _. split; [reflexivity |].
    repeat split; vm_compute; reflexivity.
  - rewrite elasticsearchStep_indexes by (vm_compute; congruence).
    eexists _, _. split; [reflexivity |].
    repeat split; vm_compute; reflexivity.
Qed.

(** C1 (amended): an accepted record whose payload is not the JSON [null]
    is indexed; when its container is named [k8s_myapp.0_mypod.myns]
    followed by nothing or by a dot and anything (dots after the pod and
    the namespace, as [k8sContainerRE] wants them) the document has
    [k8s_container=myapp], [k8s_pod=mypod] and [k8s_namespace=myns]; when
    it is named [web-1] the streamer writes no [k8s_*] field: the document
    has none that neither the payload nor the map it is stored into
    holds. *)
Theorem k8s_enrichment (typestr : string) (tmpMap : Json.gomap)
    (logline : Log) (w : World) :
  accepted typestr logline = true ->
  Json.decode (Data logline) <> Some INil ->
  exists doc w',
    elasticsearchStep typestr tmpMap logline w = (Ret (Some doc), w') /\
    trace w' =
      trace w ++ [EvIndex (indexName (clock w (ticks w))) "log" EmptyString
                    EmptyString (clock w (ticks w)) doc false] /\
    (forall rest,
       stops_at "." rest ->
       Name logline = "k8s_myapp.0_mypod.myns" +:+ rest ->
       doc !! "k8s_container" = Some (IString "myapp") /\
       doc !! "k8s_pod" = Some (IString "mypod") /\
       doc !! "k8s_namespace" = Some (IString "myns")) /\
    (Name logline = "web-1" ->
     forall key,
       In key ["k8s_container"; "k8s_pod"; "k8s_namespace"] ->
       (forall g, tmpMap = Some g -> g !! key = None) ->
       (forall members v,
          Json.decode (Data logline) = Some (IObject members) ->
          ~ In (key, v) members) ->
       doc !! key = None).
Proof.
  intros Hacc Hnull. eexists _, _.
  split; [apply elasticsearchStep_indexes; assumption |].
  cbn [trace]. split; [reflexivity |]. split.
  - intros rest Hstop Hname.
    apply document_enriched; [|discriminate]. rewrite Hname.
    apply (k8sContainerOf_parts "k8s" "myapp" "0" "mypod" "myns" rest);
      first [reflexivity | discriminate | exact Hstop].
  - intros Hname key Hkey Hmap Hpayload.
    rewrite document_plain by (rewrite Hname; reflexivity).
    assert (key <> "image" /\ key <> "container" /\ key <> "@timestamp" /\
            key <> "message") as (H1 & H2 & H3 & H4)
      by (destruct Hkey as [<- | [<- | [<- | []]]]; repeat split; discriminate).
    rewrite !lookup_insert_ne by congruence.
    destruct (Json.decode (Data logline)) as [[| | | | |members|]|] eqn:Hdec;
      try (rewrite stamped_wrapped by (intros ?; congruence);
           rewrite lookup_insert_ne by congruence;
           apply lookup_singleton_ne; congruence).
    rewrite (stamped_object _ _ _ members) by assumption.
    rewrite store_lookup_notin
      by (intros v Hin; exact (Hpayload members v eq_refl Hin)).
    destruct tmpMap as [g|]; [apply Hmap; reflexivity | apply lookup_empty].
Qed.

Lemma k8s_enrichment_witness :
  (exists doc w',
     elasticsearchStep (typestr_of []) None
       (sample_log "k8s_myapp.0_mypod.myns.etc_1234_5678" "stdout" msg_hi) quiet
     = (Ret (Some doc), w') /\
     doc !! "k8s_container" = Some (IString "myapp") /\
     doc !! "k8s_pod" = Some (IString "mypod") /\
     doc !! "k8s_namespace" = Some (IString "myns")) /\
  (exists doc w',
     elasticsearchStep (typestr_of []) None
       (sample_log "web-1" "stderr" "not json") quiet
     = (Ret (Some doc), w') /\
     doc !! "k8s_pod" = None).
Proof.
  split.
  - destruct (k8s_enrichment (typestr_of []) None
                (sample_log "k8s_myapp.0_mypod.myns.etc_1234_5678" "stdout" msg_hi)
                quiet eq_refl)
      as (doc & w' & Hstep & _ & Hk8s & _); [vm_compute; discriminate |].
    exists doc, w'. split; [exact Hstep |].
    apply (Hk8s ".etc_1234_5678"); [right; eexists; reflexivity | reflexivity].
  - destruct (k8s_enrichment (typestr_of []) None
                (sample_log "web-1" "stderr" "not json") quiet eq_refl)
      as (doc & w' & Hstep & _ & _ & Hweb); [vm_compute; discriminate |].
    exists doc, w'. split; [exact Hstep |].
    apply (Hweb eq_refl "k8s_pod"); [right; left; reflexivity | discriminate |].
    intros members v H. vm_compute in H. discriminate H.
Defined.

(** ** C10 and C2: the map the document is built in outlives the record *)

(** C10: [tmpMap] is declared outside the loop and [json.Unmarshal] stores
    into the map it holds.  For two accepted records in a row, the second
    with a JSON object as its payload, the second document has every key of
    the first; a key the payload does not define and the streamer does not
    write keeps the value the first document gave it. *)
Theorem document_keeps_previous_keys (typestr : string) (tmpMap : Json.gomap)
    (first second : Log) (members : list (string * iface)) (w : World) :
  accepted typestr first = true ->
  accepted typestr second = true ->
  Json.decode (Data first) <> Some INil ->
  Json.decode (Data second) = Some (IObject members) ->
  exists doc1 doc2 index1 index2 w',
    range [first; second] tmpMap (elasticsearchStep typestr) w
    = (Ret (Some doc2), w') /\
    trace w' =
      trace w ++
      [EvIndex index1 "log" EmptyString EmptyString (clock w (ticks w))
         doc1 false;
       EvIndex index2 "log" EmptyString EmptyString (clock w (S (ticks w)))
         doc2 false] /\
    (forall key, is_Some (doc1 !! key) -> is_Some (doc2 !! key)) /\
    (forall key v,
       doc1 !! key = Some v ->
       (forall v', ~ In (key, v') members) ->
       ~ In key written_keys ->
       doc2 !! key = Some v).
Proof.
  intros Hacc1 Hacc2 Hnull Hdec. eexists _, _, _, _, _.
  rewrite range_cons, elasticsearchStep_indexes by assumption.
  rewrite range_cons, elasticsearchStep_indexes by (try assumption; congruence).
  cbn [range mret M_ret clock ticks trace]. split; [reflexivity |].
  split; [rewrite <- app_assoc; reflexivity |]. split.
  - intros key Hkey. apply document_is_Some.
    apply (stamped_is_Some _ _ _ members); assumption.
  - intros key v Hkey Hnot Hwritten. rewrite document_other by exact Hwritten.
    apply (stamped_keeps _ _ _ members); assumption.
Qed.

Lemma document_keeps_previous_keys_witness :
  exists doc1 doc2 w',
    range [sample_log "web-1" "stderr" "not json";
           sample_log "web-2" "stdout" msg_hi] None
      (elasticsearchStep (typestr_of [])) quiet = (Ret (Some doc2), w') /\
    (exists index1 index2,
       trace w' =
         [EvIndex index1 "log" EmptyString EmptyString (clock quiet 0) doc1 false;
          EvIndex index2 "log" EmptyString EmptyString (clock quiet 1) doc2 false]) /\
    (doc1 !! "message" = Some (IString "not json") ->
     doc2 !! "message" = Some (IString "not json")).
Proof.
  destruct (document_keeps_previous_keys (typestr_of []) None
              (sample_log "web-1" "stderr" "not json")
              (sample_log "web-2" "stdout" msg_hi)
              [("msg", IString "hi")] quiet eq_refl eq_refl)
    as (doc1 & doc2 & i1 & i2 & w' & Hrun & Htrace & Hkeys & Hkeep);
    [vm_compute; discriminate | vm_compute; reflexivity |].
  exists doc1, doc2, w'. split; [exact Hrun |].
  split; [exists i1, i2; exact Htrace |].
  intros H1. apply (Hkeep "message" _ H1).
  - intros v' [H | []]. discriminate H.
  - cbn. intros [H | [H | [H | [H | [H | []]]]]]; discriminate H.
Defined.

(** C2 on a stream of two records: [not json] is indexed wrapped under
    [message] with the time it was indexed at; the payload [{"msg":"hi"}]
    after it is indexed with the [message] of the record before it and
    with that record's [@timestamp], not with one of its own. *)
Lemma second_record_keeps_first :
  exists doc1 doc2 w',
    elasticsearchStreamer sample_target []
      [sample_log "web-1" "stderr" "not json";
       sample_log "web-2" "stdout" msg_hi] quiet = (Ret tt, w') /\
    trace w' =
      [EvIndexerStart "logs.example" (Some "514");
       EvIndex "logstash-2014.10.31" "log" EmptyString EmptyString
         (clock quiet 0) doc1 false;
       EvIndex "logstash-2014.10.31" "log" EmptyString EmptyString
         (clock quiet 1) doc2 false;
       EvIndexerStop] /\
    map_to_list doc1 =
      [("container", IString "web-1"); ("message", IString "not json");
       ("image", IString "busybox"); ("@timestamp", ITime (clock quiet 0))] /\
    map_to_list doc2 =
      [("container", IString "web-2"); ("msg", IString "hi");
       ("message", IString "not json"); ("image", IString "busybox");
       ("@timestamp", ITime (clock quiet 0))].
Proof.
  exists (document (clock quiet 0) None (sample_log "web-1" "stderr" "not json")),
    (document (clock quiet 1)
       (Some (document (clock quiet 0) None
                (sample_log "web-1" "stderr" "not json")))
       (sample_log "web-2" "stdout" msg_hi)),
    (elasticsearchStreamer sample_target []
      [sample_log "web-1" "stderr" "not json";
       sample_log "web-2" "stdout" msg_hi] quiet).2.
  repeat split; vm_compute; reflexivity.
Qed.

(** ** C7: the colorizer *)

Lemma code_period (i : Z) : 0 <= i -> Colorizer.code (i + 14) = Colorizer.code i.
Proof.
  intros Hi. unfold Colorizer.code.
  rewrite !Z.rem_mod_nonneg by lia.
  replace ((i + 14) mod 14) with (i mod 14)
    by (rewrite <- (Z_mod_plus_full i 1 14); f_equal; lia).
  replace ((i + 14) mod 7) with (i mod 7)
    by (rewrite <- (Z_mod_plus_full i 2 7); f_equal; lia).
  reflexivity.
Qed.

Lemma code_distinct (i j : Z) :
  0 <= i < 14 -> 0 <= j < 14 -> Colorizer.code i = Colorizer.code j -> i = j.
Proof.
  intros Hi Hj.
  assert (i = 0 \/ i = 1 \/ i = 2 \/ i = 3 \/ i = 4 \/ i = 5 \/ i = 6 \/
          i = 7 \/ i = 8 \/ i = 9 \/ i = 10 \/ i = 11 \/ i = 12 \/ i = 13)
    as Ci by lia.
  assert (j = 0 \/ j = 1 \/ j = 2 \/ j = 3 \/ j = 4 \/ j = 5 \/ j = 6 \/
          j = 7 \/ j = 8 \/ j = 9 \/ j = 10 \/ j = 11 \/ j = 12 \/ j = 13)
    as Cj by lia.
  repeat (destruct Ci as [-> | Ci]); try subst i;
    repeat (destruct Cj as [-> | Cj]); try subst j;
    intros H; first [reflexivity | vm_compute in H; discriminate H].
Qed.

Lemma code_bright (i : Z) :
  0 <= i -> bright (Colorizer.code i) = (i mod 14 <? 7).
Proof.
  intros Hi. unfold Colorizer.code. rewrite !Z.rem_mod_nonneg by lia.
  destruct (6 <? i mod 14) eqn:E.
  - apply Z.ltb_lt in E. symmetry. rewrite Z.ltb_ge. lia.
  - apply Z.ltb_ge in E. symmetry. rewrite Z.ltb_lt. lia.
Qed.

Lemma Get_new (c : gmap string Z) (key : string) :
  c !! key = None ->
  Colorizer.Get c key =
  (Colorizer.code (Z.of_nat (size c)), <[key := Z.of_nat (size c)]> c).
Proof. intros H. unfold Colorizer.Get. rewrite H. reflexivity. Qed.

Lemma Get_known (c : gmap string Z) (key : string) (i : Z) :
  c !! key = Some i -> Colorizer.Get c key = (Colorizer.code i, c).
Proof. intros H. unfold Colorizer.Get. rewrite H. reflexivity. Qed.

(** No [Get] changes the index of a key that has one. *)
Lemma Get_keeps (c : gmap string Z) (key other : string) (i : Z) :
  c !! key = Some i -> (Colorizer.Get c other).2 !! key = Some i.
Proof.
  intros H. unfold Colorizer.Get.
  destruct (c !! other) eqn:E; cbn [snd]; [exact H |].
  rewrite lookup_insert_ne by congruence. exact H.
Qed.

Lemma Gets_keep (others : list string) (c : gmap string Z) (key : string)
    (i : Z) :
  c !! key = Some i ->
  fold_left (fun m k => (Colorizer.Get m k).2) others c !! key = Some i.
Proof.
  revert c; induction others as [|k others IH]; intros c H; [exact H |].
  cbn [fold_left]. apply IH, Get_keeps, H.
Qed.

Lemma Get_assigned (c : gmap string Z) (key : string) :
  exists i, (Colorizer.Get c key).1 = Colorizer.code i /\
            (Colorizer.Get c key).2 !! key = Some i.
Proof.
  destruct (c !! key) as [i|] eqn:E.
  - exists i. rewrite (Get_known _ _ _ E). split; [reflexivity | exact E].
  - exists (Z.of_nat (size c)). rewrite (Get_new _ _ E).
    split; [reflexivity | apply lookup_insert_eq].
Qed.

Lemma index_of_snoc (name key : string) (seen : list string) :
  index_of name (seen ++ [key]) =
  match index_of name seen with
  | Some i => Some i
  | None => if String.eqb key name then Some (length seen) else None
  end.
Proof.
  induction seen as [|x seen IH]; cbn [app index_of length].
  - destruct (String.eqb key name); reflexivity.
  - destruct (String.eqb x name); [reflexivity |]. rewrite IH.
    destruct (index_of name seen); [reflexivity |].
    destruct (String.eqb key name); reflexivity.
Qed.

Lemma holds_empty : holds ∅ [].
Proof. split; [reflexivity | intros name; apply lookup_empty]. Qed.

Lemma holds_known (c : gmap string Z) (seen : list string) (key : string)
    (i : nat) :
  holds c seen -> index_of key seen = Some i ->
  Colorizer.Get c key = (Colorizer.code (Z.of_nat i), c).
Proof.
  intros [_ Hc] Hi. apply Get_known. rewrite Hc, Hi. reflexivity.
Qed.

Lemma holds_new (c : gmap string Z) (seen : list string) (key : string) :
  holds c seen -> index_of key seen = None ->
  Colorizer.Get c key =
    (Colorizer.code (Z.of_nat (length seen)),
     <[key := Z.of_nat (length seen)]> c) /\
  holds (<[key := Z.of_nat (length seen)]> c) (seen ++ [key]).
Proof.
  intros [Hsize Hc] Hi.
  assert (c !! key = None) as Hnone by (rewrite Hc, Hi; reflexivity).
  split; [rewrite (Get_new _ _ Hnone), Hsize; reflexivity |]. split.
  - rewrite map_size_insert_None by exact Hnone.
    rewrite length_app, Hsize. cbn [length]. lia.
  - intros name. rewrite index_of_snoc.
    destruct (String.eqb key name) eqn:E.
    + apply String.eqb_eq in E as <-. rewrite Hi, lookup_insert_eq.
      reflexivity.
    + apply String.eqb_neq in E. rewrite lookup_insert_ne by exact E.
      rewrite Hc. destruct (index_of name seen); reflexivity.
Qed.

(** In a text response to a request for several containers with colors
    on, the codes of the lines follow [first_sight]. *)
Lemma httpLoop_colors (req : Request) (logstream : list Log)
    (c : gmap string Z) (seen : list string) (nameWidth : Z) :
  holds c seen ->
  colors_of (httpLoop req false true (Some c, nameWidth) logstream) =
  map (fun i => Colorizer.code (Z.of_nat i))
    (first_sight seen (map Name (List.filter (passes req) logstream))).
Proof.
  revert c seen nameWidth.
  induction logstream as [|logline rest IH]; intros c seen nameWidth Hc;
    [reflexivity |].
  cbn [httpLoop httpStep List.filter]. unfold passes at 1.
  destruct (String.eqb (query_types req) EmptyString) eqn:Eq;
    cbn [negb andb orb].
  - destruct (index_of (Name logline) seen) as [i|] eqn:Ei.
    + rewrite (holds_known _ _ _ _ Hc Ei).
      cbn [app colors_of omap list_omap map first_sight]. rewrite Ei.
      cbn [map]. f_equal. apply IH, Hc.
    + destruct (holds_new _ _ _ Hc Ei) as [-> Hc'].
      cbn [app colors_of omap list_omap map first_sight]. rewrite Ei.
      cbn [map]. f_equal. apply IH, Hc'.
  - destruct (String.eqb (Type_ logline) (query_types req)) eqn:Et;
      cbn [negb].
    + destruct (index_of (Name logline) seen) as [i|] eqn:Ei.
      * rewrite (holds_known _ _ _ _ Hc Ei).
        cbn [app colors_of omap list_omap map first_sight]. rewrite Ei.
        cbn [map]. f_equal. apply IH, Hc.
      * destruct (holds_new _ _ _ Hc Ei) as [-> Hc'].
        cbn [app colors_of omap list_omap map first_sight]. rewrite Ei.
        cbn [map]. f_equal. apply IH, Hc'.
    + cbn [app]. apply IH, Hc.
Qed.

(** C7, as the spec states it, fails on which codes are bright: in a
    response the second name gets index 1 and the bright code
    [ESC[1;36m], and index 8 gets the dim code [ESC[36m]. *)
Lemma colorizer_parity_counterexample :
  (Colorizer.Get (Colorizer.Get ∅ "web-1").2 "web-2").2 !! "web-2" = Some 1 /\
  (Colorizer.Get (Colorizer.Get ∅ "web-1").2 "web-2").1 =
    String ESC "[1;36m" /\
  bright (Colorizer.Get (Colorizer.Get ∅ "web-1").2 "web-2").1 = true /\
  Colorizer.code 8 = String ESC "[36m" /\
  bright (Colorizer.code 8) = false /\
  (httpStreamer sample_request
     [sample_log "web-1" "stdout" "a"; sample_log "web-2" "stdout" "b"] true).2 =
  [WNamed (Some (String ESC "[1;37m")) 16 "web-1" "a";
   WNamed (Some (String ESC "[1;36m")) 16 "web-2" "b"].
Proof. repeat split; vm_compute; reflexivity. Qed.

(** C7 (amended): [httpStreamer] starts every response with an empty
    colorizer when colors are on, so in a response with named lines the
    code of a line is that of the number of distinct names seen in this
    response before the line's name first appeared.  A [Get] for a key
    without an index gives it the number of keys held and the code of that
    number; a [Get] for a key with an index returns the code of the index
    and changes nothing, so the code of a key is the same after any other
    [Get]s.  The codes repeat with period 14 and the 14 of a period are
    distinct; the code of index [i] is bright when [i mod 14 < 7] and dim
    otherwise. *)
Theorem colorizer_rotation (req : Request) (logstream : list Log)
    (c : gmap string Z) (key : string) (others : list string) :
  (query_colors req <> "off" -> header_Accept req <> "application/json" ->
   colors_of (httpStreamer req logstream true).2 =
   map (fun i => Colorizer.code (Z.of_nat i))
     (first_sight [] (map Name (List.filter (passes req) logstream)))) /\
  (c !! key = None ->
   Colorizer.Get c key =
   (Colorizer.code (Z.of_nat (size c)), <[key := Z.of_nat (size c)]> c)) /\
  (forall i, c !! key = Some i -> Colorizer.Get c key = (Colorizer.code i, c)) /\
  (Colorizer.Get
     (fold_left (fun m k => (Colorizer.Get m k).2) others
        (Colorizer.Get c key).2) key).1 = (Colorizer.Get c key).1 /\
  (forall i, 0 <= i -> Colorizer.code (i + 14) = Colorizer.code i) /\
  (forall i j, 0 <= i < 14 -> 0 <= j < 14 ->
     Colorizer.code i = Colorizer.code j -> i = j) /\
  (forall i, 0 <= i -> bright (Colorizer.code i) = (i mod 14 <? 7)).
Proof.
  split; [|split; [|split; [|split; [|split; [|split]]]]].
  - intros Hcolors Hjson. unfold httpStreamer.
    apply String.eqb_neq in Hcolors. apply String.eqb_neq in Hjson.
    rewrite Hcolors, Hjson. cbn [negb snd].
    apply httpLoop_colors, holds_empty.
  - apply Get_new.
  - intros i. apply Get_known.
  - destruct (Get_assigned c key) as (i & Hcode & Hi). rewrite Hcode.
    rewrite (Get_known _ _ i); [reflexivity |]. apply Gets_keep, Hi.
  - apply code_period.
  - apply code_distinct.
  - apply code_bright.
Qed.

Lemma colorizer_rotation_witness :
  colors_of
    (httpStreamer sample_request
       [sample_log "web-1" "stdout" "a"; sample_log "web-2" "stdout" "b";
        sample_log "web-1" "stderr" "c"] true).2 =
  [String ESC "[1;37m"; String ESC "[1;36m"; String ESC "[1;37m"] /\
  Colorizer.code (3 + 14) = Colorizer.code 3 /\
  bright (Colorizer.code 9) = false.
Proof.
  destruct (colorizer_rotation sample_request
              [sample_log "web-1" "stdout" "a"; sample_log "web-2" "stdout" "b";
               sample_log "web-1" "stderr" "c"] ∅ "web-1" [])
    as (Hresp & _ & _ & _ & Hperiod & _ & Hbright).
  split; [|split].
  - rewrite Hresp by discriminate. reflexivity.
  - apply Hperiod. lia.
  - rewrite Hbright by lia. reflexivity.
Defined.

(** ** C8: the name of the index *)

Lemma abs_sane (x : Time.t) :
  sane x -> Time.abs x / 86400 = epochDay + localDay x /\ 0 <= localDay x.
Proof.
  unfold sane, Time.abs, localDay. intros H.
  set (s := Time.unix x + Time.offset x) in *.
  change (Time.unixToInternal + Time.internalToAbsolute) with (epochDay * 86400).
  rewrite Z.mod_small by (unfold epochDay; lia).
  rewrite Z.div_add by lia. split; [lia |]. apply Z.div_pos; lia.
Qed.

(** [yearDay] counts whole cycles of 400, 100, 4 and 1 years. *)
Lemma yearDay_cycles (a : Z) :
  0 <= a ->
  exists q1 n2 q3 n4 yd,
    Time.yearDay a =
      (400 * q1 + 100 * n2 + 4 * q3 + n4 + Time.absoluteZeroYear, yd) /\
    a / 86400 = 146097 * q1 + 36524 * n2 + 1461 * q3 + 365 * n4 + yd /\
    0 <= q1 /\ 0 <= n2 <= 3 /\ 0 <= q3 <= 24 /\ 0 <= n4 <= 3 /\
    0 <= yd <= 365.
Proof.
  intros Ha. unfold Time.yearDay, Time.secondsPerDay, Time.daysPer400Years,
    Time.daysPer100Years, Time.daysPer4Years.
  rewrite !Z.shiftr_div_pow2 by lia.
  change (365 * 400 + 97) with 146097. change (365 * 100 + 24) with 36524.
  change (365 * 4 + 1) with 1461. change (2 ^ 2) with 4.
  eexists _, _, _, _, _. split; [reflexivity |].
  Z.div_mod_to_equations. lia.
Qed.

(** The year and the day in it determine the day. *)
Lemma yearDay_inj (a b : Z) :
  0 <= a -> 0 <= b -> Time.yearDay a = Time.yearDay b ->
  a / 86400 = b / 86400.
Proof.
  intros Ha Hb E.
  destruct (yearDay_cycles a Ha) as (q1 & n2 & q3 & n4 & yd & Ea & Da & ?).
  destruct (yearDay_cycles b Hb) as (p1 & m2 & p3 & m4 & zd & Eb & Db & ?).
  rewrite Ea, Eb in E. injection E as Ey Ed. lia.
Qed.

Lemma yearDay_day (a b : Z) :
  a / 86400 = b / 86400 -> Time.yearDay a = Time.yearDay b.
Proof.
  intros E. unfold Time.yearDay, Time.secondsPerDay. rewrite E. reflexivity.
Qed.

(** From the Unix epoch on the year is positive and the day in it is in
    range. *)
Lemma yearDay_range (a : Z) :
  epochDay <= a / 86400 ->
  0 <= (Time.yearDay a).1 /\ 0 <= (Time.yearDay a).2 <= 365.
Proof.
  intros H.
  assert (0 <= a) as Ha.
  { destruct (Z.le_gt_cases 0 a) as [Hle | Hgt]; [exact Hle |].
    assert (a / 86400 < 0) by (apply Z.div_lt_upper_bound; lia).
    unfold epochDay in H. lia. }
  destruct (yearDay_cycles a Ha) as (q1 & n2 & q3 & n4 & yd & -> & Da & ?).
  cbn [fst snd]. unfold Time.absoluteZeroYear, epochDay in *. lia.
Qed.

Lemma digits_value_Itoa (x : Z) :
  0 <= x -> digits_value (Strings.Itoa x) = Some (Z.to_N x).
Proof.
  intros Hx. unfold Strings.Itoa.
  assert (digits_value (NilZero.string_of_uint (N.to_uint (Z.to_N x)))
          = Some (Z.to_N x)) as E.
  { unfold digits_value, NilZero.string_of_uint.
    pose proof (DecimalN.Unsigned.of_to (Z.to_N x)) as Hof.
    destruct (N.to_uint (Z.to_N x)) eqn:Ed;
      first [ rewrite <- Hof; reflexivity
            | rewrite NilEmpty.usu; cbn [option_map]; rewrite Hof; reflexivity ]. }
  destruct x; [exact E | exact E | lia].
Qed.

Lemma digits_value_zero (s : string) :
  digits_value (String "0" s) = digits_value s.
Proof.
  unfold digits_value. cbn [NilEmpty.uint_of_string].
  destruct (NilEmpty.uint_of_string s); reflexivity.
Qed.

Lemma digits_value_zeroPad (width : nat) (s : string) :
  digits_value (Time.zeroPad width s) = digits_value s.
Proof.
  unfold Time.zeroPad.
  induction (width - String.length s)%nat as [|n IH]; [reflexivity |].
  cbn [Nat.iter nat_rect]. rewrite digits_value_zero. exact IH.
Qed.

Lemma appendInt_inj (x y : Z) (width : nat) :
  0 <= x -> 0 <= y -> Time.appendInt x width = Time.appendInt y width -> x = y.
Proof.
  intros Hx Hy E.
  assert (forall z, 0 <= z ->
            digits_value (Time.appendInt z width) = Some (Z.to_N z)) as Hv.
  { intros z Hz. unfold Time.appendInt.
    destruct z; try lia; rewrite digits_value_zeroPad;
      apply digits_value_Itoa; lia. }
  pose proof (Hv x Hx) as Ex. rewrite E, (Hv y Hy) in Ex.
  injection Ex as Ex. lia.
Qed.

Lemma length_append (a b : string) :
  String.length (a +:+ b) = (String.length a + String.length b)%nat.
Proof.
  induction a as [|c a IH]; [reflexivity |].
  rewrite append_cons. cbn [String.length]. rewrite IH. reflexivity.
Qed.

(** Two texts that end in tails of the same length are equal part by
    part. *)
Lemma append_inv_tail (a1 a2 b1 b2 : string) :
  String.length b1 = String.length b2 ->
  a1 +:+ b1 = a2 +:+ b2 -> a1 = a2 /\ b1 = b2.
Proof.
  intros Hlen. revert a2; induction a1 as [|c a1 IH]; intros [|d a2] E;
    rewrite ?append_cons, ?append_nil in E.
  - split; [reflexivity | exact E].
  - apply (f_equal String.length) in E. cbn [String.length] in E.
    rewrite length_append in E. lia.
  - apply (f_equal String.length) in E. cbn [String.length] in E.
    rewrite length_append in E. lia.
  - injection E as -> E. destruct (IH _ E) as [-> ->]. split; reflexivity.
Qed.

Lemma ydays_In (yday : Z) : 0 <= yday <= 365 -> In yday ydays.
Proof.
  intros H. unfold ydays. apply in_map_iff. exists (Z.to_nat yday).
  split; [lia |]. apply in_seq. lia.
Qed.

Lemma monthDay_leap (year yday : Z) :
  Time.monthDay year yday =
  Time.monthDay (if Time.isLeap year then 4 else 1) yday.
Proof.
  unfold Time.monthDay. destruct (Time.isLeap year); reflexivity.
Qed.

Lemma monthDayText_table (year : Z) :
  NoDup (map (monthDayText year) ydays) /\
  Forall (fun yday => String.length (monthDayText year yday) = 6%nat) ydays.
Proof.
  assert (forall yday, monthDayText year yday =
            monthDayText (if Time.isLeap year then 4 else 1) yday) as E
    by (intros yday; unfold monthDayText; rewrite monthDay_leap; reflexivity).
  rewrite (map_ext _ _ E). split.
  - destruct (Time.isLeap year);
      apply (bool_decide_unpack _); vm_compute; exact I.
  - apply (Forall_impl
             (fun yday =>
                String.length
                  (monthDayText (if Time.isLeap year then 4 else 1) yday)
                = 6%nat));
      [|intros yday H; rewrite E; exact H].
    destruct (Time.isLeap year);
      apply (bool_decide_unpack _); vm_compute; exact I.
Qed.

Lemma Format_layout (x : Time.t) :
  Time.Format x indexDateStampLayout =
  Time.appendInt (Time.yearDay (Time.abs x)).1 4 +:+
  monthDayText (Time.yearDay (Time.abs x)).1 (Time.yearDay (Time.abs x)).2.
Proof.
  unfold Time.Format, Time.Date, monthDayText.
  destruct (Time.yearDay (Time.abs x)) as [year yday]. cbn [fst snd].
  destruct (Time.monthDay year yday) as [month day]. reflexivity.
Qed.

Lemma NoDup_map_inj {A B} (f : A -> B) (l : list A) (a b : A) :
  NoDup (map f l) -> In a l -> In b l -> f a = f b -> a = b.
Proof.
  induction l as [|x l IH]; intros Hnd Ha Hb E; [destruct Ha |].
  cbn [map] in Hnd. apply NoDup_cons in Hnd as [Hx Hnd].
  assert (forall y, In y l -> f x <> f y) as Hdiff.
  { intros y Hy Efy. apply Hx. rewrite Efy.
    apply list_elem_of_In, in_map, Hy. }
  destruct Ha as [<- | Ha], Hb as [<- | Hb].
  - reflexivity.
  - destruct (Hdiff _ Hb E).
  - destruct (Hdiff _ Ha (eq_sym E)).
  - apply IH; assumption.
Qed.

(** Two sane instants have the same index name exactly when they fall on
    the same day of their local calendars. *)
Lemma indexName_localDay (x1 x2 : Time.t) :
  sane x1 -> sane x2 ->
  (indexName x1 = indexName x2 <-> localDay x1 = localDay x2).
Proof.
  intros H1 H2.
  destruct (abs_sane x1 H1) as [D1 P1]. destruct (abs_sane x2 H2) as [D2 P2].
  split; intros E.
  - unfold indexName in E. apply (inj (String.append "logstash-")) in E.
    rewrite !Format_layout in E.
    destruct (yearDay_range (Time.abs x1)) as [Y1 R1]; [lia |].
    destruct (yearDay_range (Time.abs x2)) as [Y2 R2]; [lia |].
    destruct (Time.yearDay (Time.abs x1)) as [y1 yd1] eqn:S1.
    destruct (Time.yearDay (Time.abs x2)) as [y2 yd2] eqn:S2.
    cbn [fst snd] in *.
    destruct (monthDayText_table y1) as [Hnd1 Hlen1].
    destruct (monthDayText_table y2) as [_ Hlen2].
    rewrite Forall_forall in Hlen1, Hlen2.
    apply append_inv_tail in E as [Ey Ed];
      [|rewrite Hlen1, Hlen2 by (apply list_elem_of_In, ydays_In; assumption);
        reflexivity].
    apply appendInt_inj in Ey; [|assumption | assumption]. subst y2.
    apply (NoDup_map_inj _ _ _ _ Hnd1) in Ed;
      [|apply ydays_In; assumption | apply ydays_In; assumption]. subst yd2.
    assert (Time.abs x1 / 86400 = Time.abs x2 / 86400) as Ea.
    { apply yearDay_inj;
        [apply Z.mod_pos_bound; lia | apply Z.mod_pos_bound; lia |].
      rewrite S1, S2. reflexivity. }
    lia.
  - unfold indexName, Time.Format, Time.Date.
    rewrite (yearDay_day (Time.abs x1) (Time.abs x2)) by lia. reflexivity.
Qed.

(** C8, as the spec states it, fails on the calendar: [time.Now()] is in
    the zone of the process.  One hour east of UTC, records indexed at
    22:30 and 23:30 UTC of the same UTC day go to the indices of October 31
    and of November 1, and records indexed at 23:30 UTC and at 00:30 UTC of
    the next UTC day go to the same index. *)
Lemma utc_day_counterexample :
  utcDay (clock east 0) = utcDay (clock east 1) /\
  (exists doc1 doc2,
     (elasticsearchStreamer sample_target []
        [sample_log "web-1" "stdout" "a"; sample_log "web-1" "stdout" "b"]
        east).1 = Ret tt /\
     trace (elasticsearchStreamer sample_target []
              [sample_log "web-1" "stdout" "a"; sample_log "web-1" "stdout" "b"]
              east).2 =
       [EvIndexerStart "logs.example" (Some "514");
        EvIndex "logstash-2014.10.31" "log" EmptyString EmptyString
          (clock east 0) doc1 false;
        EvIndex "logstash-2014.11.01" "log" EmptyString EmptyString
          (clock east 1) doc2 false;
        EvIndexerStop]) /\
  utcDay (clock east 1) <> utcDay (clock east 2) /\
  "logstash-" +:+ Time.Format (clock east 1) indexDateStampLayout =
  "logstash-" +:+ Time.Format (clock east 2) indexDateStampLayout.
Proof.
  split; [vm_compute; reflexivity |]. split.
  - exists (document (clock east 0) None (sample_log "web-1" "stdout" "a")),
      (document (clock east 1)
         (Some (document (clock east 0) None (sample_log "web-1" "stdout" "a")))
         (sample_log "web-1" "stdout" "b")).
    split; vm_compute; reflexivity.
  - split; [vm_compute; discriminate | vm_compute; reflexivity].
Qed.

(** C8 (amended): an accepted record whose payload is not the JSON [null]
    is indexed into ["logstash-"] followed by the year in four digits, a
    dot, the month in two, a dot and the day in two, the date being that
    of [time.Now()] on the calendar of the zone of the process.  For two
    such records indexed at sane instants, the index names are equal
    exactly when the instants fall on the same day of that calendar. *)
Theorem index_per_local_day (typestr : string) (m1 m2 : Json.gomap)
    (l1 l2 : Log) (w1 w2 : World) :
  accepted typestr l1 = true -> accepted typestr l2 = true ->
  Json.decode (Data l1) <> Some INil -> Json.decode (Data l2) <> Some INil ->
  sane (clock w1 (ticks w1)) -> sane (clock w2 (ticks w2)) ->
  exists index1 index2 doc1 doc2,
    trace (elasticsearchStep typestr m1 l1 w1).2 =
      trace w1 ++ [EvIndex index1 "log" EmptyString EmptyString
                     (clock w1 (ticks w1)) doc1 false] /\
    trace (elasticsearchStep typestr m2 l2 w2).2 =
      trace w2 ++ [EvIndex index2 "log" EmptyString EmptyString
                     (clock w2 (ticks w2)) doc2 false] /\
    (forall year month day,
       Time.Date (clock w1 (ticks w1)) = (year, month, day) ->
       index1 = "logstash-" +:+ Time.appendInt year 4 +:+ "." +:+
                Time.appendInt month 2 +:+ "." +:+ Time.appendInt day 2) /\
    (index1 = index2 <->
     localDay (clock w1 (ticks w1)) = localDay (clock w2 (ticks w2))).
Proof.
  intros Ha1 Ha2 Hn1 Hn2 Hs1 Hs2. eexists _, _, _, _.
  rewrite !elasticsearchStep_indexes by assumption. cbn [snd trace].
  split; [reflexivity |]. split; [reflexivity |]. split.
  - intros year month day E. unfold indexName, Time.Format. rewrite E.
    cbn [Time.Format_go indexDateStampLayout]. rewrite append_nil_r.
    reflexivity.
  - apply indexName_localDay; assumption.
Qed.

Lemma index_per_local_day_witness :
  exists doc1 doc2,
    trace (elasticsearchStep (typestr_of []) None
             (sample_log "web-1" "stdout" "a") east).2 =
      [EvIndex "logstash-2014.10.31" "log" EmptyString EmptyString
         (clock east 0) doc1 false] /\
    trace (elasticsearchStep (typestr_of []) None
             (sample_log "web-1" "stdout" "b") quiet).2 =
      [EvIndex "logstash-2014.10.31" "log" EmptyString EmptyString
         (clock quiet 0) doc2 false].
Proof.
  destruct (index_per_local_day (typestr_of []) None None
              (sample_log "web-1" "stdout" "a") (sample_log "web-1" "stdout" "b")
              east quiet eq_refl eq_refl)
    as (i1 & i2 & doc1 & doc2 & H1 & H2 & Hfmt & Hday);
    [vm_compute; discriminate | vm_compute; discriminate
    | vm_compute; split; [discriminate | reflexivity]
    | vm_compute; split; [discriminate | reflexivity] |].
  assert (i1 = "logstash-2014.10.31") as E1
    by (rewrite (Hfmt 2014 10 31) by (vm_compute; reflexivity); reflexivity).
  assert (i2 = "logstash-2014.10.31") as E2
    by (rewrite <- E1; symmetry; apply Hday; vm_compute; reflexivity).
  exists doc1, doc2. rewrite H1, H2, E1, E2. split; reflexivity.
Defined.

(** * Further properties *)

(** ** Loops *)

Lemma range_app {S} (a b : list Log) (st : S) (body : S -> Log -> M S)
    (w : World) :
  range (a ++ b) st body w =
  match range a st body w with
  | (Ret st', w') => range b st' body w'
  | (Exit status, w') => (Exit status, w')
  | (Panic msg, w') => (Panic msg, w')
  end.
Proof.
  revert st w; induction a as [|x a IH]; intros st w; [reflexivity |].
  cbn [app]. rewrite !range_cons.
  destruct (body st x w) as [[st' | status | msg] w']; [apply IH | |];
    reflexivity.
Qed.

(** ** The syslog streamer over a whole stream *)

Lemma syslogEvents_cons (target : Target) (w : World) (handle from : nat)
    (logline : Log) (sent : list Log) :
  syslogEvents target w handle from (logline :: sent) =
  [EvSyslogDial "udp" (Addr target) syslogPriority
     (Name logline +:+ AppendTag target) (Some handle);
   EvSyslogMessage handle syslogPriority
     (Name logline +:+ AppendTag target) (Data logline)
     (negb (failing w (S from)))] ++
  syslogEvents target w (S handle) (S (S from)) sent.
Proof.
  unfold syslogEvents. rewrite imap_cons. cbn [concat].
  replace (2 * 0)%nat with 0%nat by reflexivity.
  rewrite !Nat.add_0_r. f_equal. f_equal.
  apply imap_ext. intros i x _. cbn [compose].
  replace (handle + S i)%nat with (S handle + i)%nat by lia.
  replace (from + 2 * S i)%nat with (S (S from) + 2 * i)%nat by lia.
  reflexivity.
Qed.

Lemma syslogEvents_no_close (target : Target) (w : World) (handle from : nat)
    (sent : list Log) :
  forallb (fun e => negb (isClose e)) (syslogEvents target w handle from sent)
  = true.
Proof.
  revert handle from; induction sent as [|x sent IH]; intros handle from;
    [reflexivity |].
  rewrite syslogEvents_cons, forallb_app, IH. reflexivity.
Qed.

Lemma syslog_loop (target : Target) (typestr : string) (logstream : list Log)
    (w : World) :
  (forall i, (i < length (List.filter (accepted typestr) logstream))%nat ->
             failing w (calls w + 2 * i)%nat = false) ->
  range logstream tt (syslogStep target typestr) w =
  (Ret tt,
   {| clock := clock w; ticks := ticks w; failing := failing w;
      calls :=
        (calls w + 2 * length (List.filter (accepted typestr) logstream))%nat;
      writers :=
        writers w ++
        map (fun logline => (syslogPriority, Name logline +:+ AppendTag target))
          (List.filter (accepted typestr) logstream);
      conns := conns w;
      trace := trace w ++
               syslogEvents target w (length (writers w)) (calls w)
                 (List.filter (accepted typestr) logstream) |}).
Proof.
  revert w; induction logstream as [|logline rest IH]; intros w Hdial.
  - cbn. rewrite Nat.add_0_r, !app_nil_r. destruct w; reflexivity.
  - rewrite range_cons. cbn [List.filter] in *.
    destruct (accepted typestr logline) eqn:Hacc.
    + assert (failing w (calls w) = false) as H0
        by (rewrite <- (Nat.add_0_r (calls w)); apply (Hdial 0%nat); cbn; lia).
      rewrite syslogStep_dialed by assumption. rewrite IH.
      * cbn [calls trace failing clock ticks writers conns length map].
        rewrite syslogEvents_cons, length_app. cbn [length].
        rewrite <- !app_assoc. cbn [app].
        replace (S (S (calls w)) +
                 2 * length (List.filter (accepted typestr) rest))%nat
          with (calls w +
                2 * S (length (List.filter (accepted typestr) rest)))%nat by lia.
        replace (length (writers w) + 1)%nat with (S (length (writers w)))
          by lia.
        reflexivity.
      * cbn [calls failing]. intros i Hi.
        replace (S (S (calls w)) + 2 * i)%nat with (calls w + 2 * S i)%nat
          by lia.
        apply Hdial. cbn [length]. lia.
    + destruct (rejected_steps typestr logline Hacc) as (Hsys & _ & _).
      rewrite Hsys. apply IH, Hdial.
Qed.

(** X1: when every dial succeeds, [syslogStreamer] returns normally at
    the end of the stream having opened one writer per accepted record, in
    order, each with the tag of its record; it sends one message on each
    and closes none of them, whatever the writes return. *)
Theorem syslog_one_writer_per_record (target : Target) (types : list string)
    (logstream : list Log) (w : World) :
  let sent := List.filter (accepted (typestr_of types)) logstream in
  (forall i, (i < length sent)%nat ->
             failing w (calls w + 2 * i)%nat = false) ->
  exists w',
    syslogStreamer target types logstream w = (Ret tt, w') /\
    writers w' =
      writers w ++
      map (fun logline => (syslogPriority, Name logline +:+ AppendTag target))
        sent /\
    trace w' =
      trace w ++ syslogEvents target w (length (writers w)) (calls w) sent /\
    length (syslogEvents target w (length (writers w)) (calls w) sent)
      = (2 * length sent)%nat /\
    forallb (fun e => negb (isClose e))
      (syslogEvents target w (length (writers w)) (calls w) sent) = true.
Proof.
  intros sent Hdial. eexists. unfold syslogStreamer.
  rewrite syslog_loop by exact Hdial. cbn [writers trace].
  split; [reflexivity |]. split; [reflexivity |]. split; [reflexivity |].
  split; [|apply syslogEvents_no_close].
  clear Hdial. generalize (length (writers w)) (calls w).
  induction sent as [|x l IH]; intros h f; [reflexivity |].
  rewrite syslogEvents_cons, length_app, IH. cbn [length]. lia.
Qed.

Lemma syslog_one_writer_per_record_witness :
  exists w',
    syslogStreamer sample_target ["stdout"]
      [sample_log "web-1" "stdout" "a"; sample_log "web-1" "stderr" "b";
       sample_log "web-2" "stdout" "c"] quiet = (Ret tt, w') /\
    writers w' = [(14, "web-1.prod"); (14, "web-2.prod")].
Proof.
  destruct (syslog_one_writer_per_record sample_target ["stdout"]
              [sample_log "web-1" "stdout" "a"; sample_log "web-1" "stderr" "b";
               sample_log "web-2" "stdout" "c"] quiet)
    as (w' & Hrun & Hwriters & _); [intros i _; reflexivity |].
  exists w'. split; [exact Hrun | exact Hwriters].
Defined.

(** ** The UDP streamer when it cannot start *)

(** X2: when the address does not resolve, or resolves and the socket
    does not open, [udpStreamer] ends the process with status 1 before it
    reads a record: the trace holds the failed call and the fatal line,
    no socket is counted, and the stream makes no difference. *)
Theorem udp_startup_fatal (target : Target) (types : list string)
    (logstream : list Log) (w : World) :
  (failing w (calls w) = true ->
   exists w',
     udpStreamer target types logstream w = (Exit 1, w') /\
     conns w' = conns w /\
     trace w' = trace w ++ [EvResolveUDPAddr "udp" (Addr target) false;
                            EvFatal "resolve udp failed"]) /\
  (failing w (calls w) = false -> failing w (S (calls w)) = true ->
   exists w',
     udpStreamer target types logstream w = (Exit 1, w') /\
     conns w' = conns w /\
     trace w' = trace w ++ [EvResolveUDPAddr "udp" (Addr target) true;
                            EvDialUDP "udp" (Addr target) None;
                            EvFatal "connect udp failed"]).
Proof.
  split.
  - intros Hresolve. eexists. unfold udpStreamer. run_world.
    rewrite Hresolve. run_world.
    split; [reflexivity |]. split; [reflexivity |].
    rewrite <- app_assoc. reflexivity.
  - intros Hresolve Hdial. eexists. unfold udpStreamer. run_world.
    rewrite Hresolve. run_world. rewrite Hdial. run_world.
    split; [reflexivity |]. split; [reflexivity |].
    rewrite <- !app_assoc. reflexivity.
Qed.

Lemma udp_startup_fatal_witness :
  exists w',
    udpStreamer sample_target []
      [sample_log "web-1" "stdout" "a"] unreachable = (Exit 1, w') /\
    trace w' = [EvResolveUDPAddr "udp" "logs.example:514" false;
                EvFatal "resolve udp failed"].
Proof.
  destruct (udp_startup_fatal sample_target []
              [sample_log "web-1" "stdout" "a"] unreachable) as [Hresolve _].
  destruct (Hresolve eq_refl) as (w' & Hrun & _ & Htrace).
  exists w'. split; [exact Hrun | exact Htrace].
Defined.

(** ** The indexing streamer over a whole stream *)

Lemma Split_go_head (fuel : nat) (s : string) :
  exists tail, Strings.Split_go fuel s ":" = (Strings.cut ":" s).1 :: tail.
Proof.
  destruct fuel as [|fuel]; cbn [Strings.Split_go];
    destruct (Strings.cut ":" s) as [hd [tl|]]; cbn [fst]; eauto.
Qed.

Lemma cut_length (s : string) (tl : string) :
  (Strings.cut ":" s).2 = Some tl -> (0 < String.length s)%nat.
Proof. destruct s; cbn; [discriminate | lia]. Qed.

Lemma Split_domain_port (addr : string) :
  nth 0 (Strings.Split addr ":") EmptyString = addrDomain addr /\
  (if (1 <? length (Strings.Split addr ":"))%nat
   then Some (nth 1 (Strings.Split addr ":") EmptyString) else None)
  = addrPort addr.
Proof.
  unfold Strings.Split, addrDomain, addrPort.
  destruct (Strings.cut ":" addr) as [hd [tl|]] eqn:E.
  - pose proof (cut_length addr tl) as Hlen. rewrite E in Hlen.
    specialize (Hlen eq_refl).
    destruct (String.length addr) as [|fuel]; [lia |].
    cbn [Strings.Split_go]. rewrite E.
    destruct (Split_go_head fuel tl) as [tail ->]. cbn. split; reflexivity.
  - destruct (String.length addr); cbn [Strings.Split_go]; rewrite E;
      split; reflexivity.
Qed.

Lemma cut_lacks (s : string) :
  lacks ":" s = true -> Strings.cut ":" s = (s, None).
Proof.
  induction s as [|c s IH]; [reflexivity |]. cbn [lacks Strings.cut].
  intros H. apply andb_true_iff in H as [Hc Hs].
  rewrite Ascii.eqb_sym. apply negb_true_iff in Hc. rewrite Hc, (IH Hs).
  reflexivity.
Qed.

Lemma cut_at (a b : string) :
  lacks ":" a = true -> Strings.cut ":" (a +:+ String ":" b) = (a, Some b).
Proof.
  induction a as [|c a IH]; [reflexivity |]. cbn [lacks].
  intros H. apply andb_true_iff in H as [Hc Hs].
  rewrite append_cons. cbn [Strings.cut].
  rewrite Ascii.eqb_sym. apply negb_true_iff in Hc. rewrite Hc, (IH Hs).
  reflexivity.
Qed.

Lemma es_loop (typestr : string) (logstream : list Log) (tmpMap : Json.gomap)
    (w : World) :
  no_null typestr logstream ->
  range logstream tmpMap (elasticsearchStep typestr) w =
  (Ret (indexed typestr (clock w) (ticks w) tmpMap logstream).2,
   {| clock := clock w;
      ticks := (ticks w + length (List.filter (accepted typestr) logstream))%nat;
      failing := failing w; calls := calls w; writers := writers w;
      conns := conns w;
      trace :=
        trace w ++ (indexed typestr (clock w) (ticks w) tmpMap logstream).1 |}).
Proof.
  revert tmpMap w; induction logstream as [|logline rest IH];
    intros tmpMap w Hnull.
  - cbn. rewrite Nat.add_0_r, app_nil_r. destruct w; reflexivity.
  - apply Forall_cons in Hnull as [Hhead Hrest].
    rewrite range_cons. cbn [List.filter indexed].
    destruct (accepted typestr logline) eqn:Hacc.
    + rewrite elasticsearchStep_indexes by auto. rewrite (IH _ _ Hrest).
      cbn [clock ticks failing calls writers conns trace length].
      destruct (indexed typestr (clock w) (S (ticks w))
                  (Some (document (clock w (ticks w)) tmpMap logline)) rest)
        as [events m].
      cbn [fst snd]. rewrite <- app_assoc, Nat.add_succ_r. reflexivity.
    + destruct (rejected_steps typestr logline Hacc) as (_ & _ & Hes).
      rewrite Hes. apply IH, Hrest.
Qed.

Lemma indexed_length (typestr : string) (clk : nat -> Time.t)
    (logstream : list Log) (tick : nat) (tmpMap : Json.gomap) :
  length (indexed typestr clk tick tmpMap logstream).1 =
  length (List.filter (accepted typestr) logstream).
Proof.
  revert tick tmpMap; induction logstream as [|logline rest IH];
    intros tick tmpMap; [reflexivity |].
  cbn [indexed List.filter]. destruct (accepted typestr logline); [|apply IH].
  specialize (IH (S tick) (Some (document (clk tick) tmpMap logline))).
  destruct (indexed typestr clk (S tick)
              (Some (document (clk tick) tmpMap logline)) rest) as [events m].
  cbn [fst length] in *. rewrite IH. reflexivity.
Qed.

Lemma indexed_dates (typestr : string) (clk : nat -> Time.t)
    (logstream : list Log) (tick : nat) (tmpMap : Json.gomap) (i : nat)
    (e : Event) :
  (indexed typestr clk tick tmpMap logstream).1 !! i = Some e ->
  exists doc,
    e = EvIndex (indexName (clk (tick + i)%nat)) "log" EmptyString EmptyString
          (clk (tick + i)%nat) doc false.
Proof.
  revert tick tmpMap i; induction logstream as [|logline rest IH];
    intros tick tmpMap i; [discriminate |].
  cbn [indexed]. destruct (accepted typestr logline); [|apply IH].
  specialize (IH (S tick) (Some (document (clk tick) tmpMap logline))).
  destruct (indexed typestr clk (S tick)
              (Some (document (clk tick) tmpMap logline)) rest) as [events m].
  cbn [fst] in *. destruct i as [|i]; cbn [lookup list_lookup].
  - intros [= <-]. rewrite Nat.add_0_r. eauto.
  - intros H. rewrite Nat.add_succ_r. apply (IH i), H.
Qed.

(** X3: when no accepted record has the JSON [null] as payload,
    [elasticsearchStreamer] returns normally at the end of the stream; its
    trace is the start of the indexer, one index call per accepted record
    in the order of the stream, and the stop of the indexer; the [i]-th of
    these calls carries the [i]-th reading of the clock as its date and is
    filed under the index of that instant. *)
Theorem indexing_whole_stream (target : Target) (types : list string)
    (logstream : list Log) (w : World) :
  no_null (typestr_of types) logstream ->
  exists w' calls_,
    elasticsearchStreamer target types logstream w = (Ret tt, w') /\
    trace w' =
      trace w ++
      [EvIndexerStart (addrDomain (Addr target)) (addrPort (Addr target))] ++
      calls_ ++ [EvIndexerStop] /\
    length calls_ =
      length (List.filter (accepted (typestr_of types)) logstream) /\
    forall i e,
      calls_ !! i = Some e ->
      exists doc,
        e = EvIndex (indexName (clock w (ticks w + i)%nat)) "log" EmptyString
              EmptyString (clock w (ticks w + i)%nat) doc false.
Proof.
  intros Hnull.
  exists (elasticsearchStreamer target types logstream w).2,
    (indexed (typestr_of types) (clock w) (ticks w) None logstream).1.
  unfold elasticsearchStreamer.
  destruct (Split_domain_port (Addr target)) as [-> ->].
  run_world. rewrite es_loop by exact Hnull. run_world. cbn [fst snd trace].
  split; [reflexivity |]. split; [rewrite <- !app_assoc; reflexivity |].
  split; [apply indexed_length | apply indexed_dates].
Qed.

Lemma indexing_whole_stream_witness :
  exists w' calls_,
    elasticsearchStreamer sample_target ["stdout"]
      [sample_log "web-1" "stdout" "a"; sample_log "web-1" "stderr" "b";
       sample_log "web-2" "stdout" msg_hi] quiet = (Ret tt, w') /\
    trace w' =
      [EvIndexerStart "logs.example" (Some "514")] ++ calls_ ++
      [EvIndexerStop] /\
    length calls_ = 2%nat.
Proof.
  destruct (indexing_whole_stream sample_target ["stdout"]
              [sample_log "web-1" "stdout" "a"; sample_log "web-1" "stderr" "b";
               sample_log "web-2" "stdout" msg_hi] quiet)
    as (w' & calls_ & Hrun & Htrace & Hlen & _).
  { repeat constructor; intros _; vm_compute; discriminate. }
  exists w', calls_. split; [exact Hrun |]. split; [exact Htrace | exact Hlen].
Defined.

(** X4: an accepted record whose payload is the JSON [null] stops
    [elasticsearchStreamer] with the run-time panic of an assignment to a
    nil map: after the records before it (none of them such a record) it
    indexes nothing more, the deferred stop of the indexer still runs, and
    what follows in the stream makes no difference. *)
Theorem indexing_null_payload_panics (target : Target) (types : list string)
    (before after : list Log) (logline : Log) (w : World) :
  no_null (typestr_of types) before ->
  accepted (typestr_of types) logline = true ->
  Json.decode (Data logline) = Some INil ->
  exists w' calls_,
    elasticsearchStreamer target types (before ++ logline :: after) w
    = (Panic "assignment to entry in nil map", w') /\
    trace w' =
      trace w ++
      [EvIndexerStart (addrDomain (Addr target)) (addrPort (Addr target))] ++
      calls_ ++ [EvIndexerStop] /\
    length calls_ = length (List.filter (accepted (typestr_of types)) before).
Proof.
  intros Hbefore Hacc Hnull.
  exists (elasticsearchStreamer target types (before ++ logline :: after) w).2,
    (indexed (typestr_of types) (clock w) (ticks w) None before).1.
  unfold elasticsearchStreamer.
  destruct (Split_domain_port (Addr target)) as [-> ->].
  run_world. rewrite range_app, es_loop by exact Hbefore.
  rewrite range_cons, elasticsearchStep_null by assumption.
  run_world. cbn [fst snd trace].
  split; [reflexivity |]. split; [rewrite <- !app_assoc; reflexivity |].
  apply indexed_length.
Qed.

Lemma indexing_null_payload_panics_witness :
  exists w',
    elasticsearchStreamer sample_target []
      [sample_log "web-1" "stdout" "a"; sample_log "web-1" "stdout" "null";
       sample_log "web-1" "stdout" "b"] quiet
    = (Panic "assignment to entry in nil map", w').
Proof.
  destruct (indexing_null_payload_panics sample_target []
              [sample_log "web-1" "stdout" "a"]
              [sample_log "web-1" "stdout" "b"]
              (sample_log "web-1" "stdout" "null") quiet)
    as (w' & calls_ & Hrun & _).
  { repeat constructor; intros _; vm_compute; discriminate. }
  { reflexivity. }
  { vm_compute; reflexivity. }
  exists w'. exact Hrun.
Defined.

(** ** The address of the indexing sink *)

Lemma cut_stops (a more : string) :
  lacks ":" a = true -> stops_at ":" more ->
  (Strings.cut ":" (a +:+ more)).1 = a.
Proof.
  intros Ha [-> | [r ->]].
  - rewrite append_nil_r, cut_lacks by exact Ha. reflexivity.
  - rewrite cut_at by exact Ha. reflexivity.
Qed.

Lemma es_loop_extends (typestr : string) (logstream : list Log)
    (tmpMap : Json.gomap) (w : World) :
  exists events,
    trace (range logstream tmpMap (elasticsearchStep typestr) w).2 =
    trace w ++ events.
Proof.
  revert tmpMap w; induction logstream as [|logline rest IH]; intros tmpMap w.
  - exists []. cbn. rewrite app_nil_r. reflexivity.
  - rewrite range_cons. destruct (accepted typestr logline) eqn:Hacc.
    + assert (Json.decode (Data logline) = Some INil \/
              Json.decode (Data logline) <> Some INil) as [Hn | Hn]
        by (destruct (Json.decode (Data logline)) as [[| | | | | |]|];
            first [left; reflexivity | right; discriminate]).
      * rewrite elasticsearchStep_null by assumption. exists [].
        cbn. rewrite app_nil_r. reflexivity.
      * rewrite elasticsearchStep_indexes by assumption.
        edestruct IH as [events ->]. cbn [trace].
        rewrite <- app_assoc. eauto.
    + destruct (rejected_steps typestr logline Hacc) as (_ & _ & Hes).
      rewrite Hes. apply IH.
Qed.

Lemma es_first_event (target : Target) (types : list string)
    (logstream : list Log) (w : World) :
  exists events,
    trace (elasticsearchStreamer target types logstream w).2 =
    trace w ++
    EvIndexerStart (addrDomain (Addr target)) (addrPort (Addr target))
      :: events.
Proof.
  unfold elasticsearchStreamer.
  destruct (Split_domain_port (Addr target)) as [-> ->]. run_world.
  match goal with
  | |- context [range logstream None ?body ?w0] =>
      destruct (es_loop_extends (typestr_of types) logstream None w0)
        as [events Hev];
      destruct (range logstream None body w0) as [[m | status | msg] w1]
  end; cbn [snd trace] in *; rewrite Hev; cbn [trace];
    rewrite <- ?app_assoc; cbn [app]; eauto.
Qed.

(** X5: [elasticsearchStreamer] starts its indexer on the text of the
    address before the first colon and, as the port, the text between the
    first and the second colon, dropping what follows a second colon; for
    an address without a colon the domain is the whole address and no port
    is set. *)
Theorem indexing_address (target : Target) (types : list string)
    (logstream : list Log) (w : World) (host port_ more : string) :
  (lacks ":" host = true -> lacks ":" port_ = true -> stops_at ":" more ->
   Addr target = host +:+ String ":" (port_ +:+ more) ->
   exists events,
     trace (elasticsearchStreamer target types logstream w).2 =
     trace w ++ EvIndexerStart host (Some port_) :: events) /\
  (lacks ":" (Addr target) = true ->
   exists events,
     trace (elasticsearchStreamer target types logstream w).2 =
     trace w ++ EvIndexerStart (Addr target) None :: events).
Proof.
  destruct (es_first_event target types logstream w) as [events Hev].
  split.
  - intros Hhost Hport Hmore Haddr. exists events. rewrite Hev.
    unfold addrDomain, addrPort. rewrite Haddr, cut_at by exact Hhost.
    cbn [fst snd]. rewrite cut_stops by assumption. reflexivity.
  - intros Haddr. exists events. rewrite Hev.
    unfold addrDomain, addrPort. rewrite cut_lacks by exact Haddr.
    reflexivity.
Qed.

Lemma indexing_address_witness :
  (exists events,
     trace (elasticsearchStreamer
              {| TargetType := "elasticsearch"; Addr := "es.local:9200:x";
                 AppendTag := EmptyString |} [] [] quiet).2 =
     EvIndexerStart "es.local" (Some "9200") :: events) /\
  (exists events,
     trace (elasticsearchStreamer
              {| TargetType := "elasticsearch"; Addr := "es.local";
                 AppendTag := EmptyString |} [] [] quiet).2 =
     EvIndexerStart "es.local" None :: events).
Proof.
  split.
  - destruct (indexing_address
                {| TargetType := "elasticsearch"; Addr := "es.local:9200:x";
                   AppendTag := EmptyString |} [] [] quiet
                "es.local" "9200" ":x") as [H _].
    apply H; [reflexivity | reflexivity | right; eexists; reflexivity
             | reflexivity].
  - destruct (indexing_address
                {| TargetType := "elasticsearch"; Addr := "es.local";
                   AppendTag := EmptyString |} [] [] quiet
                EmptyString EmptyString EmptyString) as [_ H].
    apply H. reflexivity.
Defined.

(** ** The document of one record *)

Lemma store_lookup (members : list (string * iface))
    (m : gmap string iface) (key : string) :
  Json.store members m !! key =
  match assoc_last members key with
  | Some v => Some v
  | None => m !! key
  end.
Proof.
  revert m; induction members as [|[k v] members IH]; intros m;
    [reflexivity |].
  unfold Json.store in *. cbn [fold_left fst snd assoc_last]. rewrite IH.
  destruct (assoc_last members key); [reflexivity |].
  destruct (String.eqb k key) eqn:E.
  - apply String.eqb_eq in E as ->. apply lookup_insert_eq.
  - apply String.eqb_neq in E. apply lookup_insert_ne, E.
Qed.

(** X6: the document of an accepted record whose payload is not a JSON
    object (and not [null]) does not depend on the map left by earlier
    records: it holds the payload under [message], the time of indexing
    under [@timestamp], the name under [container], the image under
    [image], and nothing else but the [k8s_*] fields. *)
Theorem wrapped_document (typestr : string) (tmpMap : Json.gomap)
    (logline : Log) (w : World) :
  accepted typestr logline = true ->
  Json.decode (Data logline) <> Some INil ->
  (forall members, Json.decode (Data logline) <> Some (IObject members)) ->
  exists doc w',
    (forall other,
       elasticsearchStep typestr other logline w = (Ret (Some doc), w')) /\
    elasticsearchStep typestr tmpMap logline w = (Ret (Some doc), w') /\
    trace w' =
      trace w ++ [EvIndex (indexName (clock w (ticks w))) "log" EmptyString
                    EmptyString (clock w (ticks w)) doc false] /\
    doc !! "message" = Some (IString (Data logline)) /\
    doc !! "@timestamp" = Some (ITime (clock w (ticks w))) /\
    doc !! "container" = Some (IString (Name logline)) /\
    doc !! "image" = Some (IString (Image logline)) /\
    forall key,
      ~ In key ("message" :: "@timestamp" :: written_keys) ->
      doc !! key = None.
Proof.
  intros Hacc Hnull Hobj.
  assert (forall other,
            document (clock w (ticks w)) other logline =
            document (clock w (ticks w)) tmpMap logline) as Hsame
    by (intros other; unfold document; rewrite !stamped_wrapped by exact Hobj;
        reflexivity).
  eexists _, _. split; [|split; [apply elasticsearchStep_indexes; assumption |]].
  - intros other. rewrite elasticsearchStep_indexes by assumption.
    rewrite Hsame. reflexivity.
  - cbn [trace]. split; [reflexivity |].
    assert (forall key, ~ In key written_keys ->
              document (clock w (ticks w)) tmpMap logline !! key =
              (<["message" := IString (Data logline)]>
                 {["@timestamp" := ITime (clock w (ticks w))]} : gmap string iface)
              !! key) as Hother
      by (intros key Hk; rewrite document_other by exact Hk;
          rewrite stamped_wrapped by exact Hobj; reflexivity).
    split; [rewrite Hother by (cbn; intros [H | [H | [H | [H | [H | []]]]]];
                               discriminate H); apply lookup_insert_eq |].
    split; [rewrite Hother by (cbn; intros [H | [H | [H | [H | [H | []]]]]];
                               discriminate H);
            rewrite lookup_insert_ne by discriminate;
            apply lookup_singleton_eq |].
    split.
    { unfold document.
      destruct (0 <? String.length (Pod (k8sContainerOf (Name logline))))%nat;
        rewrite ?(lookup_insert_ne _ "k8s_namespace"),
          ?(lookup_insert_ne _ "k8s_container"),
          ?(lookup_insert_ne _ "k8s_pod"), ?(lookup_insert_ne _ "image")
          by discriminate; apply lookup_insert_eq. }
    split.
    { unfold document.
      destruct (0 <? String.length (Pod (k8sContainerOf (Name logline))))%nat;
        rewrite ?(lookup_insert_ne _ "k8s_namespace"),
          ?(lookup_insert_ne _ "k8s_container"),
          ?(lookup_insert_ne _ "k8s_pod") by discriminate;
        apply lookup_insert_eq. }
    intros key Hkey.
    rewrite Hother by (intros Hin; apply Hkey; right; right; exact Hin).
    rewrite lookup_insert_ne
      by (intros <-; apply Hkey; left; reflexivity).
    apply lookup_singleton_ne. intros <-. apply Hkey. right; left; reflexivity.
Qed.

Lemma wrapped_document_witness :
  exists doc w',
    elasticsearchStep (typestr_of [])
      (Some {["stale" := IString "left over"]})
      (sample_log "web-1" "stdout" "plain text") quiet = (Ret (Some doc), w') /\
    doc !! "message" = Some (IString "plain text") /\
    doc !! "stale" = None.
Proof.
  destruct (wrapped_document (typestr_of [])
              (Some {["stale" := IString "left over"]})
              (sample_log "web-1" "stdout" "plain text") quiet eq_refl)
    as (doc & w' & _ & Hstep & _ & Hmsg & _ & _ & _ & Hnone).
  { vm_compute; discriminate. }
  { intros members; vm_compute; discriminate. }
  exists doc, w'. split; [exact Hstep |]. split; [exact Hmsg |].
  apply Hnone. cbn. intros [H | [H | [H | [H | [H | [H | [H | []]]]]]]];
    discriminate H.
Defined.

(** X7: the document of an accepted record whose payload is a JSON object:
    [container] and [image] are those of the record, whatever the payload
    says; any other key the streamer does not write has the value of its
    last member of that name in the payload, else the value the map already
    held; [@timestamp] is the payload's own when it has one, else the one
    the map held, else the time of indexing. *)
Theorem object_document (typestr : string) (tmpMap : Json.gomap)
    (logline : Log) (members : list (string * iface)) (w : World) :
  accepted typestr logline = true ->
  Json.decode (Data logline) = Some (IObject members) ->
  exists doc w',
    elasticsearchStep typestr tmpMap logline w = (Ret (Some doc), w') /\
    doc !! "container" = Some (IString (Name logline)) /\
    doc !! "image" = Some (IString (Image logline)) /\
    (forall key,
       ~ In key written_keys -> key <> "@timestamp" ->
       doc !! key =
       match assoc_last members key with
       | Some v => Some v
       | None => default ∅ tmpMap !! key
       end) /\
    doc !! "@timestamp" =
      match assoc_last members "@timestamp" with
      | Some v => Some v
      | None =>
          match default ∅ tmpMap !! "@timestamp" with
          | Some v => Some v
          | None => Some (ITime (clock w (ticks w)))
          end
      end.
Proof.
  intros Hacc Hdec. eexists _, _.
  split; [apply elasticsearchStep_indexes; [assumption | congruence] |].
  split.
  { unfold document.
    destruct (0 <? String.length (Pod (k8sContainerOf (Name logline))))%nat;
      rewrite ?(lookup_insert_ne _ "k8s_namespace"),
        ?(lookup_insert_ne _ "k8s_container"),
        ?(lookup_insert_ne _ "k8s_pod"), ?(lookup_insert_ne _ "image")
        by discriminate; apply lookup_insert_eq. }
  split.
  { unfold document.
    destruct (0 <? String.length (Pod (k8sContainerOf (Name logline))))%nat;
      rewrite ?(lookup_insert_ne _ "k8s_namespace"),
        ?(lookup_insert_ne _ "k8s_container"),
        ?(lookup_insert_ne _ "k8s_pod") by discriminate;
      apply lookup_insert_eq. }
  split.
  - intros key Hkey Hts. rewrite document_other by exact Hkey.
    rewrite (stamped_object _ _ _ members) by assumption.
    apply store_lookup.
  - rewrite document_other
      by (cbn; intros [H | [H | [H | [H | [H | []]]]]]; discriminate H).
    unfold stamped. rewrite Hdec.
    pose proof (store_lookup members (default ∅ tmpMap) "@timestamp") as Hs.
    destruct (Json.store members (default ∅ tmpMap) !! "@timestamp") as [v|]
      eqn:E.
    + rewrite E, Hs.
      destruct (assoc_last members "@timestamp"); [reflexivity |].
      destruct (default ∅ tmpMap !! "@timestamp"); [reflexivity |].
      discriminate Hs.
    + rewrite lookup_insert_eq.
      destruct (assoc_last members "@timestamp"); [discriminate Hs |].
      rewrite <- Hs. reflexivity.
Qed.

Lemma object_document_witness :
  exists doc w',
    elasticsearchStep (typestr_of []) None
      (sample_log "web-1" "stdout"
         ("{" +:+ quoted "container" +:+ ":" +:+ quoted "x" +:+ "," +:+
          quoted "@timestamp" +:+ ":" +:+ quoted "then" +:+ "}")) quiet
    = (Ret (Some doc), w') /\
    doc !! "container" = Some (IString "web-1") /\
    doc !! "@timestamp" = Some (IString "then").
Proof.
  destruct (object_document (typestr_of []) None
              (sample_log "web-1" "stdout"
                 ("{" +:+ quoted "container" +:+ ":" +:+ quoted "x" +:+ "," +:+
                  quoted "@timestamp" +:+ ":" +:+ quoted "then" +:+ "}"))
              [("container", IString "x"); ("@timestamp", IString "then")]
              quiet eq_refl)
    as (doc & w' & Hstep & Hc & _ & _ & Hts); [vm_compute; reflexivity |].
  exists doc, w'. split; [exact Hstep |]. split; [exact Hc | exact Hts].
Defined.

(** ** Which names [k8sContainerRE] matches *)

Lemma plus_none_stops (c : ascii) k (s : string) :
  (forall s', k s' <> None) -> Regexp.plus c k s = None -> stops_at c s.
Proof.
  intros Hk H. destruct s as [|d s]; [left; reflexivity |].
  cbn [Regexp.plus] in H. fold (Regexp.plus c k) in H.
  destruct (Ascii.eqb c d) eqn:E.
  - apply Ascii.eqb_eq in E as ->. right. eauto.
  - destruct (Regexp.plus c k s) as [[grp r]|]; [discriminate |].
    destruct (k s) as [r|] eqn:Ek; [discriminate |]. destruct (Hk s Ek).
Qed.

(** In front of a pattern that matches everything a repetition takes the
    whole run. *)
Lemma plus_greedy (c : ascii) k (s g : string) res :
  (forall s', k s' <> None) ->
  Regexp.plus c k s = Some (g, res) ->
  exists s', s = g +:+ s' /\ stops_at c s' /\ k s' = Some res.
Proof.
  intros Hk. revert g res; induction s as [|d s IH]; intros g res H;
    [discriminate |].
  cbn [Regexp.plus] in H. fold (Regexp.plus c k) in H.
  destruct (Ascii.eqb c d) eqn:Ed; [discriminate |].
  destruct (Regexp.plus c k s) as [[grp r]|] eqn:E.
  - injection H as <- <-. destruct (IH _ _ eq_refl) as (s' & -> & Hs & Hr).
    exists s'. repeat split; assumption.
  - destruct (k s) as [r|] eqn:Ek; [|discriminate].
    injection H as <- <-. exists s.
    repeat split; [apply (plus_none_stops c k); assumption | exact Ek].
Qed.

Lemma k8sContainerRE_shape (name : string) groups rest :
  Regexp.run k8sContainerRE name = Some (groups, rest) ->
  exists a c h p n,
    groups = [c; p; n] /\
    name = a +:+ String "_" (c +:+ String "." (h +:+ String "_"
             (p +:+ String "." (n +:+ rest)))) /\
    (lacks "_" a = true /\ a <> EmptyString) /\
    (lacks "." c = true /\ c <> EmptyString) /\
    (lacks "_" h = true /\ h <> EmptyString) /\
    (lacks "." p = true /\ p <> EmptyString) /\
    (lacks "." n = true /\ n <> EmptyString) /\
    stops_at "." rest.
Proof.
  unfold k8sContainerRE. intros H.
  apply run_plus_inv in H as (a & s1 & g1 & -> & Ha' & Ha & H & ->).
  apply run_lit_inv in H as (s2 & -> & H).
  apply run_plus_inv in H as (c & s3 & g2 & -> & Hc' & Hc & H & ->).
  apply run_lit_inv in H as (s4 & -> & H).
  apply run_plus_inv in H as (h & s5 & g3 & -> & Hh' & Hh & H & ->).
  apply run_lit_inv in H as (s6 & -> & H).
  apply run_plus_inv in H as (p & s7 & g4 & -> & Hp' & Hp & H & ->).
  apply run_lit_inv in H as (s8 & -> & H).
  cbn [Regexp.run] in H.
  destruct (Regexp.plus "." (fun s => Some ([], s)) s8)
    as [[n [groups' rest']]|] eqn:E; [|discriminate].
  injection H as <- <-.
  pose proof (plus_sound _ _ _ _ _ E) as (s9 & _ & Hn' & Hn & _).
  apply plus_greedy in E as (s9' & -> & Hstop & [= <- <-]);
    [|discriminate].
  exists a, c, h, p, n. repeat split; assumption.
Qed.

(** X8: [FindStringSubmatch] with [k8sContainerRE] returns nil or exactly
    four texts, so [match[1]], [match[2]] and [match[3]] are in range
    whenever [len(match) > 0].  It returns the groups [c], [p], [n]
    exactly for the names made of a part without underscore, an
    underscore, [c] without dot, a dot, a part without underscore, an
    underscore, [p] without dot, a dot and [n] without dot, all non-empty,
    followed by nothing or by a dot. *)
Theorem k8s_match_shape (name c p n : string) :
  (Regexp.FindStringSubmatch k8sContainerRE name = [] \/
   length (Regexp.FindStringSubmatch k8sContainerRE name) = 4%nat) /\
  ((exists whole,
      Regexp.FindStringSubmatch k8sContainerRE name = [whole; c; p; n]) <->
   exists a h rest,
     (lacks "_" a = true /\ a <> EmptyString) /\
     (lacks "." c = true /\ c <> EmptyString) /\
     (lacks "_" h = true /\ h <> EmptyString) /\
     (lacks "." p = true /\ p <> EmptyString) /\
     (lacks "." n = true /\ n <> EmptyString) /\
     stops_at "." rest /\
     name = a +:+ String "_" (c +:+ String "." (h +:+ String "_"
              (p +:+ String "." (n +:+ rest))))).
Proof.
  unfold Regexp.FindStringSubmatch. split; [|split].
  - destruct (Regexp.run k8sContainerRE name) as [[groups rest]|] eqn:E;
      [right | left; reflexivity].
    apply k8sContainerRE_shape in E as (a & c' & h & p' & n' & -> & _).
    reflexivity.
  - intros [whole H].
    destruct (Regexp.run k8sContainerRE name) as [[groups rest]|] eqn:E;
      [|discriminate].
    apply k8sContainerRE_shape in E
      as (a & c' & h & p' & n' & -> & Hname & Ha & Hc & Hh & Hp & Hn & Hstop).
    injection H as _ <- <- <-. exists a, h, rest. repeat split;
      first [apply Ha | apply Hc | apply Hh | apply Hp | apply Hn
            | exact Hstop | exact Hname].
  - intros (a & h & rest & [Ha Ha'] & [Hc Hc'] & [Hh Hh'] & [Hp Hp'] &
            [Hn Hn'] & Hstop & ->).
    rewrite k8sContainerRE_parts by assumption. eauto.
Qed.

Lemma k8s_match_shape_witness :
  exists whole,
    Regexp.FindStringSubmatch k8sContainerRE
      "k8s_web.3f2a_frontend.default.etcd_9f1c_0a" =
    [whole; "web"; "frontend"; "default"].
Proof.
  apply (k8s_match_shape "k8s_web.3f2a_frontend.default.etcd_9f1c_0a"
           "web" "frontend" "default").
  exists "k8s", "3f2a", ".etcd_9f1c_0a".
  repeat split; first [reflexivity | discriminate | right; eexists; reflexivity].
Defined.

(** X9: an accepted record whose payload is not the JSON [null] and whose
    container name has that shape is indexed with [k8s_container],
    [k8s_pod] and [k8s_namespace] set to the parts [c], [p] and [n] of the
    name, whatever the payload or the map held under these keys. *)
Theorem k8s_fields_from_name (typestr : string) (tmpMap : Json.gomap)
    (logline : Log) (w : World) (a c h p n rest : string) :
  accepted typestr logline = true ->
  Json.decode (Data logline) <> Some INil ->
  lacks "_" a = true -> a <> EmptyString ->
  lacks "." c = true -> c <> EmptyString ->
  lacks "_" h = true -> h <> EmptyString ->
  lacks "." p = true -> p <> EmptyString ->
  lacks "." n = true -> n <> EmptyString ->
  stops_at "." rest ->
  Name logline = a +:+ String "_" (c +:+ String "." (h +:+ String "_"
                   (p +:+ String "." (n +:+ rest)))) ->
  exists doc w',
    elasticsearchStep typestr tmpMap logline w = (Ret (Some doc), w') /\
    doc !! "k8s_container" = Some (IString c) /\
    doc !! "k8s_pod" = Some (IString p) /\
    doc !! "k8s_namespace" = Some (IString n).
Proof.
  intros Hacc Hnull Ha Ha' Hc Hc' Hh Hh' Hp Hp' Hn Hn' Hstop Hname.
  eexists _, _. split; [apply elasticsearchStep_indexes; assumption |].
  apply document_enriched; [|exact Hp']. rewrite Hname.
  apply k8sContainerOf_parts; assumption.
Qed.

Lemma k8s_fields_from_name_witness :
  exists doc w',
    elasticsearchStep (typestr_of []) None
      (sample_log "k8s_web.3f2a_frontend.default.etcd_9f1c_0a" "stdout"
         ("{" +:+ quoted "k8s_pod" +:+ ":" +:+ quoted "forged" +:+ "}")) quiet
    = (Ret (Some doc), w') /\
    doc !! "k8s_container" = Some (IString "web") /\
    doc !! "k8s_pod" = Some (IString "frontend") /\
    doc !! "k8s_namespace" = Some (IString "default").
Proof.
  apply (k8s_fields_from_name (typestr_of []) None
           (sample_log "k8s_web.3f2a_frontend.default.etcd_9f1c_0a" "stdout"
              ("{" +:+ quoted "k8s_pod" +:+ ":" +:+ quoted "forged" +:+ "}"))
           quiet "k8s" "web" "3f2a" "frontend" "default" ".etcd_9f1c_0a");
    first [reflexivity | discriminate | right; eexists; reflexivity
          | vm_compute; discriminate].
Defined.

(** ** The indices a colorizer gives out *)

Lemma index_of_lookup (name : string) (seen : list string) (i : nat) :
  index_of name seen = Some i -> seen !! i = Some name.
Proof.
  revert i; induction seen as [|x seen IH]; intros i; [discriminate |].
  cbn [index_of]. destruct (String.eqb x name) eqn:E.
  - intros [= <-]. apply String.eqb_eq in E as ->. reflexivity.
  - destruct (index_of name seen) as [j|]; [|discriminate].
    intros [= <-]. apply (IH j eq_refl).
Qed.

Lemma holds_Get (c : gmap string Z) (seen : list string) (key : string) :
  holds c seen -> exists seen', holds (Colorizer.Get c key).2 seen'.
Proof.
  intros Hc. destruct (index_of key seen) as [i|] eqn:E.
  - exists seen. rewrite (holds_known _ _ _ _ Hc E). exact Hc.
  - exists (seen ++ [key]). destruct (holds_new _ _ _ Hc E) as [-> Hc'].
    exact Hc'.
Qed.

Lemma holds_Gets (keys : list string) (c : gmap string Z)
    (seen : list string) :
  holds c seen ->
  exists seen', holds (fold_left (fun m k => (Colorizer.Get m k).2) keys c) seen'.
Proof.
  revert c seen; induction keys as [|k keys IH]; intros c seen Hc; [eauto |].
  cbn [fold_left]. destruct (holds_Get c seen k Hc) as [seen' Hc'].
  apply (IH _ _ Hc').
Qed.

Lemma Gets_assign (keys : list string) (c : gmap string Z) (key : string) :
  In key keys ->
  is_Some (fold_left (fun m k => (Colorizer.Get m k).2) keys c !! key).
Proof.
  revert c; induction keys as [|k keys IH]; intros c Hin; [destruct Hin |].
  cbn [fold_left].
  destruct (decide (k = key)) as [-> | Hne].
  - destruct (Get_assigned c key) as (i & _ & Hi).
    rewrite (Gets_keep keys _ _ _ Hi). eauto.
  - destruct Hin as [-> | Hin]; [congruence |]. apply IH, Hin.
Qed.

(** X10: in a colorizer that started empty, after any sequence of [Get]s,
    every key asked for has an index, the indices are below the number of
    keys, two keys never share an index, and while there are at most 14
    keys no two of them share a code. *)
Theorem colorizer_indices_distinct (keys : list string) (k1 k2 : string)
    (i1 i2 : Z) :
  let c := fold_left (fun m k => (Colorizer.Get m k).2) keys ∅ in
  (forall key, In key keys -> is_Some (c !! key)) /\
  (c !! k1 = Some i1 -> c !! k2 = Some i2 ->
   0 <= i1 < Z.of_nat (size c) /\
   (k1 <> k2 -> i1 <> i2) /\
   (k1 <> k2 -> (size c <= 14)%nat ->
    Colorizer.code i1 <> Colorizer.code i2)).
Proof.
  intros c. split; [intros key; apply Gets_assign |].
  destruct (holds_Gets keys ∅ [] holds_empty) as (seen & Hsize & Hc).
  fold c in Hsize, Hc. intros H1 H2. rewrite Hc in H1, H2.
  destruct (index_of k1 seen) as [j1|] eqn:E1; [|discriminate].
  destruct (index_of k2 seen) as [j2|] eqn:E2; [|discriminate].
  injection H1 as <-. injection H2 as <-.
  pose proof (lookup_lt_Some _ _ _ (index_of_lookup _ _ _ E1)) as L1.
  pose proof (lookup_lt_Some _ _ _ (index_of_lookup _ _ _ E2)) as L2.
  assert (k1 <> k2 -> Z.of_nat j1 <> Z.of_nat j2) as Hdiff.
  { intros Hne E. apply Nat2Z.inj in E. subst j2.
    apply index_of_lookup in E1, E2. congruence. }
  split; [lia |]. split; [exact Hdiff |].
  intros Hne H14 Ecode. apply (Hdiff Hne).
  apply code_distinct; [lia | lia | exact Ecode].
Qed.

Lemma colorizer_indices_distinct_witness :
  Colorizer.code 0 <> Colorizer.code 1.
Proof.
  destruct (colorizer_indices_distinct ["web-1"; "web-2"; "web-1"]
              "web-1" "web-2" 0 1) as [_ H].
  destruct H as (_ & _ & Hcode); [reflexivity | reflexivity |].
  apply Hcode; [discriminate | vm_compute; lia].
Defined.

(** ** What [httpStreamer] writes *)

Lemma passes_guard (req : Request) (logline : Log) :
  negb (String.eqb (query_types req) EmptyString) &&
  negb (String.eqb (Type_ logline) (query_types req)) = negb (passes req logline).
Proof.
  unfold passes. destruct (String.eqb (query_types req) EmptyString),
    (String.eqb (Type_ logline) (query_types req)); reflexivity.
Qed.

Lemma httpLoop_json (req : Request) (multi : bool)
    (st : option Colorizer.t * Z) (logstream : list Log) :
  httpLoop req true multi st logstream =
  map (fun logline => WJson (Log_json logline))
    (List.filter (passes req) logstream).
Proof.
  destruct st as [colors nameWidth].
  induction logstream as [|logline rest IH]; [reflexivity |].
  cbn [httpLoop httpStep List.filter]. rewrite passes_guard. destruct (passes req logline); cbn [negb app map];
    rewrite IH; reflexivity.
Qed.

Lemma httpLoop_raw (req : Request) (st : option Colorizer.t * Z)
    (logstream : list Log) :
  httpLoop req false false st logstream =
  map (fun logline => WRaw (Data logline))
    (List.filter (passes req) logstream).
Proof.
  destruct st as [colors nameWidth].
  induction logstream as [|logline rest IH]; [reflexivity |].
  cbn [httpLoop httpStep List.filter]. rewrite passes_guard. destruct (passes req logline); cbn [negb app map];
    rewrite IH; reflexivity.
Qed.

(** X11: [httpStreamer] writes the records whose type equals the [types]
    parameter of the query, or all of them when it is empty, in the order
    of the stream and nothing else: as the JSON of each when the request
    accepts [application/json] (whatever [multi] and the colors), and as
    the bare payload of each when it does not and [multi] is false. *)
Theorem http_json_and_raw (req : Request) (logstream : list Log)
    (multi : bool) :
  (header_Accept req = "application/json" ->
   httpStreamer req logstream multi =
   ("application/json",
    map (fun logline => WJson (Log_json logline))
      (List.filter (passes req) logstream))) /\
  (header_Accept req <> "application/json" ->
   httpStreamer req logstream false =
   ("text/plain",
    map (fun logline => WRaw (Data logline))
      (List.filter (passes req) logstream))).
Proof.
  unfold httpStreamer. split.
  - intros ->. rewrite String.eqb_refl, httpLoop_json.
    reflexivity.
  - intros H. apply String.eqb_neq in H. rewrite H, httpLoop_raw.
    reflexivity.
Qed.

Lemma http_json_and_raw_witness :
  httpStreamer
    {| query_colors := EmptyString; query_types := "stderr";
       header_Accept := "application/json"; header_Upgrade := EmptyString |}
    [sample_log "web-1" "stdout" "a"; sample_log "web-1" "stderr" "b"] true =
  ("application/json", [WJson (Log_json (sample_log "web-1" "stderr" "b"))]) /\
  httpStreamer sample_request
    [sample_log "web-1" "stdout" "a"; sample_log "web-1" "stderr" "b"] false =
  ("text/plain", [WRaw "a"; WRaw "b"]).
Proof.
  split.
  - rewrite (proj1 (http_json_and_raw
                      {| query_colors := EmptyString; query_types := "stderr";
                         header_Accept := "application/json";
                         header_Upgrade := EmptyString |} _ true))
      by reflexivity.
    reflexivity.
  - rewrite (proj2 (http_json_and_raw sample_request _ false)) by discriminate.
    reflexivity.
Defined.

Lemma foldr_max_init (w0 x : Z) (l : list Z) :
  foldr Z.max (Z.max w0 x) l = Z.max x (foldr Z.max w0 l).
Proof.
  induction l as [|y l IH]; cbn [foldr]; [lia | rewrite IH; lia].
Qed.

Lemma httpLoop_named (req : Request) (logstream : list Log)
    (colors : option Colorizer.t) (nameWidth : Z) :
  let out := httpLoop req false true (colors, nameWidth) logstream in
  let sent := List.filter (passes req) logstream in
  length out = length sent /\
  forall i logline,
    sent !! i = Some logline ->
    exists color,
      out !! i =
        Some (WNamed color
                (foldr Z.max nameWidth (map nameLen (take (S i) sent)))
                (Name logline) (Data logline)) /\
      (colors = None -> color = None) /\
      (is_Some colors -> is_Some color).
Proof.
  revert colors nameWidth; induction logstream as [|x rest IH];
    intros colors nameWidth; [split; [reflexivity | intros i l H; discriminate H] |].
  cbn [httpLoop httpStep List.filter]. rewrite passes_guard.
  destruct (passes req x); cbn [negb]; [|apply IH].
  assert ((if nameWidth <? Z.of_nat (String.length (Name x))
           then Z.of_nat (String.length (Name x)) else nameWidth)
          = Z.max nameWidth (nameLen x)) as ->
    by (unfold nameLen; destruct (Z.ltb_spec nameWidth
          (Z.of_nat (String.length (Name x)))); lia).
  assert (forall (line : Written) (color : option string) out',
            line = WNamed color (Z.max nameWidth (nameLen x)) (Name x) (Data x) ->
            (colors = None -> color = None) ->
            (is_Some colors -> is_Some color) ->
            (length out' = length (List.filter (passes req) rest) /\
             forall i logline,
               List.filter (passes req) rest !! i = Some logline ->
               exists col,
                 out' !! i =
                   Some (WNamed col
                           (foldr Z.max (Z.max nameWidth (nameLen x))
                              (map nameLen
                                 (take (S i) (List.filter (passes req) rest))))
                           (Name logline) (Data logline)) /\
                 (colors = None -> col = None) /\
                 (is_Some colors -> is_Some col)) ->
            length (line :: out') =
              length (x :: List.filter (passes req) rest) /\
            forall i logline,
              (x :: List.filter (passes req) rest) !! i = Some logline ->
              exists col,
                (line :: out') !! i =
                  Some (WNamed col
                          (foldr Z.max nameWidth
                             (map nameLen
                                (take (S i)
                                   (x :: List.filter (passes req) rest))))
                          (Name logline) (Data logline)) /\
                (colors = None -> col = None) /\
                (is_Some colors -> is_Some col)) as Hcons.
  { intros line color out' -> Hnone Hsome [Hlen Hout]. split.
    - cbn [length]. rewrite Hlen. reflexivity.
    - intros [|i] logline H.
      + change (Some x = Some logline) in H. injection H as <-.
        exists color. split; [|split; assumption].
        change ((WNamed color (Z.max nameWidth (nameLen x)) (Name x) (Data x)
                   :: out') !! 0%nat)
          with (Some (WNamed color (Z.max nameWidth (nameLen x)) (Name x)
                        (Data x))).
        cbn [firstn map foldr]. rewrite (Z.max_comm nameWidth). reflexivity.
      + change (List.filter (passes req) rest !! i = Some logline) in H.
        destruct (Hout i logline H) as (col & Ho & Hn & Hs).
        exists col. split; [|split; assumption].
        change ((WNamed color (Z.max nameWidth (nameLen x)) (Name x) (Data x)
                   :: out') !! S i) with (out' !! i).
        rewrite Ho. cbn [firstn map foldr]. rewrite foldr_max_init.
        reflexivity. }
  destruct colors as [c|].
  - destruct (Colorizer.Get c (Name x)) as [color c'] eqn:Eget. cbn [app].
    apply (Hcons _ (Some color)); [reflexivity | discriminate | eauto |].
    destruct (IH (Some c') (Z.max nameWidth (nameLen x))) as [Hlen Hout].
    split; [exact Hlen |]. intros i logline H.
    destruct (Hout i logline H) as (col & Ho & _ & Hs).
    exists col. split; [exact Ho |].
    split; [discriminate | intros _; apply Hs; eauto].
  - cbn [app]. apply (Hcons _ None); [reflexivity | reflexivity | |].
    + intros [? H]; discriminate H.
    + apply IH.
Qed.

(** X12: for a request for several containers that does not accept JSON,
    [httpStreamer] writes one named line per record that passes the type
    test, in order, with the name and the payload of the record; the width
    of a line is the largest of 16 and the lengths of the names of the
    records written so far, this one included; a line carries a color
    code exactly when the [colors] parameter is not [off]. *)
Theorem http_named_lines (req : Request) (logstream : list Log) :
  header_Accept req <> "application/json" ->
  let out := (httpStreamer req logstream true).2 in
  let sent := List.filter (passes req) logstream in
  (httpStreamer req logstream true).1 = "text/plain" /\
  length out = length sent /\
  forall i logline,
    sent !! i = Some logline ->
    exists color,
      out !! i =
        Some (WNamed color (foldr Z.max 16 (map nameLen (take (S i) sent)))
                (Name logline) (Data logline)) /\
      (query_colors req = "off" -> color = None) /\
      (query_colors req <> "off" -> is_Some color).
Proof.
  intros Hjson. apply String.eqb_neq in Hjson. unfold httpStreamer.
  rewrite Hjson. cbn [fst snd]. split; [reflexivity |].
  match goal with
  | |- context [httpLoop req false true (?colors, 16) logstream] =>
      destruct (httpLoop_named req logstream colors 16) as [Hlen Hout];
      assert ((query_colors req = "off" -> colors = None) /\
              (query_colors req <> "off" -> is_Some colors)) as [Hoff Hon]
  end.
  { destruct (String.eqb (query_colors req) "off") eqn:E; cbn [negb].
    - apply String.eqb_eq in E. split; [reflexivity | congruence].
    - apply String.eqb_neq in E. split; [congruence | eauto]. }
  cbn zeta in Hlen, Hout. split; [exact Hlen |].
  intros i logline H. destruct (Hout i logline H) as (color & Ho & Hn & Hs).
  exists color. split; [exact Ho |]. split; auto.
Qed.

Lemma http_named_lines_witness :
  exists color,
    (httpStreamer
       {| query_colors := "off"; query_types := EmptyString;
          header_Accept := EmptyString; header_Upgrade := EmptyString |}
       [sample_log "a-name-of-more-than-16-bytes" "stdout" "a";
        sample_log "web-1" "stderr" "b"] true).2 !! 1%nat =
    Some (WNamed color 28 "web-1" "b") /\
    color = None.
Proof.
  destruct (http_named_lines
              {| query_colors := "off"; query_types := EmptyString;
                 header_Accept := EmptyString; header_Upgrade := EmptyString |}
              [sample_log "a-name-of-more-than-16-bytes" "stdout" "a";
               sample_log "web-1" "stderr" "b"]) as (_ & _ & Hout);
    [discriminate |].
  destruct (Hout 1%nat (sample_log "web-1" "stderr" "b") eq_refl)
    as (color & Ho & Hoff & _).
  exists color. split; [exact Ho | apply Hoff; reflexivity].
Defined.

(** ** More on the handler of [GET /logs] *)

(** X13: for a request by id whose value has at least 12 bytes, the
    handler looks only at the first 12: when they are the id of an attached
    container it subscribes with exactly these 12 bytes as the id, to the
    structured stream when the request upgrades to [websocket] and else to
    the line stream of a single container; two values with the same first
    12 bytes are served alike. *)
Theorem logs_id_prefix (attacher : gset string) (req : Request)
    (params : gmap string string) (value other : string) :
  params !! "predicate" = Some "id" ->
  (12 <= String.length value)%nat ->
  (12 <= String.length other)%nat ->
  (AttachManager_Get attacher (substring 0 12 value) = true ->
   logsHandler attacher req (<["value" := value]> params) =
   Listen {| SourceID := substring 0 12 value; SourceName := EmptyString;
             SourceFilter := EmptyString |}
     (if String.eqb (header_Upgrade req) "websocket" then Websocket
      else Http false)) /\
  (substring 0 12 value = substring 0 12 other ->
   logsHandler attacher req (<["value" := value]> params) =
   logsHandler attacher req (<["value" := other]> params)).
Proof.
  intros Hp Hv Ho.
  assert (forall v, (12 <= String.length v)%nat ->
            logsHandler attacher req (<["value" := v]> params) =
            if negb (AttachManager_Get attacher (substring 0 12 v))
            then NotFound
            else Listen {| SourceID := substring 0 12 v;
                           SourceName := EmptyString;
                           SourceFilter := EmptyString |}
                   (if String.eqb (header_Upgrade req) "websocket"
                    then Websocket else Http false)) as Hrun.
  { intros v Hlen. unfold logsHandler, param.
    rewrite lookup_insert_ne by discriminate. rewrite Hp, lookup_insert_eq.
    rewrite (eqb_empty_false v) by lia.
    rewrite slice_to_long by exact Hlen.
    cbn [String.eqb Ascii.eqb Bool.eqb andb negb mbind option_bind SourceID
         SourceFilter].
    rewrite eqb_empty_false by (rewrite substring_length_le; lia).
    cbn [negb andb]. unfold Source_All. cbn [SourceID SourceName SourceFilter].
    rewrite eqb_empty_false by (rewrite substring_length_le; lia).
    cbn [andb orb negb String.eqb].
    destruct (AttachManager_Get attacher (substring 0 12 v)),
      (String.eqb (header_Upgrade req) "websocket"); reflexivity. }
  split.
  - intros Hget. rewrite (Hrun value Hv), Hget. reflexivity.
  - intros E. rewrite (Hrun value Hv), (Hrun other Ho), E. reflexivity.
Qed.

Lemma logs_id_prefix_witness :
  logsHandler {["0123456789ab"]} sample_request
    (<["value" := "0123456789abcdef0123"]> {["predicate" := "id"]}) =
  Listen {| SourceID := "0123456789ab"; SourceName := EmptyString;
            SourceFilter := EmptyString |} (Http false).
Proof.
  destruct (logs_id_prefix {["0123456789ab"]} sample_request
              {["predicate" := "id"]} "0123456789abcdef0123" "0123456789ab")
    as [H _]; [reflexivity | simpl; lia | simpl; lia |].
  rewrite H by (vm_compute; reflexivity). reflexivity.
Defined.

(** X14: a request whose predicate is not [id] is never answered with 404
    and never faults, whatever is attached: by [name] with a value it
    subscribes to that name as a single container; by [filter] with a
    value it subscribes to that filter as several; with any other
    predicate, or none, it subscribes to all containers as several. *)
Theorem logs_other_predicates (attacher : gset string) (req : Request)
    (params : gmap string string) :
  param params "predicate" <> "id" ->
  let to multi :=
    if String.eqb (header_Upgrade req) "websocket" then Websocket
    else Http multi in
  (exists source streamer,
     logsHandler attacher req params = Listen source streamer /\
     SourceID source = EmptyString) /\
  (param params "predicate" = "name" -> param params "value" <> EmptyString ->
   logsHandler attacher req params =
   Listen {| SourceID := EmptyString; SourceName := param params "value";
             SourceFilter := EmptyString |} (to false)) /\
  (param params "predicate" = "filter" -> param params "value" <> EmptyString ->
   logsHandler attacher req params =
   Listen {| SourceID := EmptyString; SourceName := EmptyString;
             SourceFilter := param params "value" |} (to true)) /\
  (param params "predicate" <> "name" ->
   param params "predicate" <> "filter" ->
   logsHandler attacher req params =
   Listen {| SourceID := EmptyString; SourceName := EmptyString;
             SourceFilter := EmptyString |} (to true)).
Proof.
  intros Hid to. apply String.eqb_neq in Hid.
  assert (param params "predicate" = "name" ->
          param params "value" <> EmptyString ->
          logsHandler attacher req params =
          Listen {| SourceID := EmptyString;
                    SourceName := param params "value";
                    SourceFilter := EmptyString |} (to false)) as Hname.
  { intros Hn Hv. apply String.eqb_neq in Hv. unfold logsHandler.
    rewrite Hid, Hn, Hv. unfold Source_All.
    cbn [String.eqb Ascii.eqb Bool.eqb andb negb orb SourceID SourceName
         SourceFilter].
    rewrite Hv. unfold to.
    destruct (String.eqb (header_Upgrade req) "websocket"); reflexivity. }
  assert (param params "predicate" = "filter" ->
          param params "value" <> EmptyString ->
          logsHandler attacher req params =
          Listen {| SourceID := EmptyString; SourceName := EmptyString;
                    SourceFilter := param params "value" |} (to true)) as Hfilter.
  { intros Hf Hv. apply String.eqb_neq in Hv. unfold logsHandler.
    rewrite Hid, Hf, Hv. unfold Source_All.
    cbn [String.eqb Ascii.eqb Bool.eqb andb negb orb SourceID SourceName
         SourceFilter].
    rewrite Hv. unfold to.
    destruct (String.eqb (header_Upgrade req) "websocket"); reflexivity. }
  assert ((param params "predicate" <> "name" /\
           param params "predicate" <> "filter") \/
          param params "value" = EmptyString ->
          logsHandler attacher req params =
          Listen {| SourceID := EmptyString; SourceName := EmptyString;
                    SourceFilter := EmptyString |} (to true)) as Hall.
  { intros H. unfold logsHandler. rewrite Hid. cbn [andb].
    assert (String.eqb (param params "predicate") "name" &&
              negb (String.eqb (param params "value") EmptyString) = false /\
            String.eqb (param params "predicate") "filter" &&
              negb (String.eqb (param params "value") EmptyString) = false)
      as [-> ->].
    { destruct H as [[Hn Hf] | Hv].
      - apply String.eqb_neq in Hn, Hf. rewrite Hn, Hf. split; reflexivity.
      - rewrite Hv. cbn [String.eqb negb]. rewrite !andb_false_r.
        split; reflexivity. }
    unfold to, Source_All.
    destruct (String.eqb (header_Upgrade req) "websocket"); reflexivity. }
  split; [|split; [exact Hname | split; [exact Hfilter |]]].
  - destruct (String.eqb (param params "value") EmptyString) eqn:Ev.
    + apply String.eqb_eq in Ev. eexists _, _.
      split; [apply Hall; right; exact Ev | reflexivity].
    + apply String.eqb_neq in Ev.
      destruct (String.eqb (param params "predicate") "name") eqn:En.
      * apply String.eqb_eq in En. eexists _, _.
        split; [apply Hname; assumption | reflexivity].
      * destruct (String.eqb (param params "predicate") "filter") eqn:Ef.
        -- apply String.eqb_eq in Ef. eexists _, _.
           split; [apply Hfilter; assumption | reflexivity].
        -- apply String.eqb_neq in En, Ef. eexists _, _.
           split; [apply Hall; left; split; assumption | reflexivity].
  - intros Hn Hf. apply Hall. left. split; assumption.
Qed.

Lemma logs_other_predicates_witness :
  logsHandler ∅ sample_request
    {["predicate" := "filter"; "value" := "web"]} =
  Listen {| SourceID := EmptyString; SourceName := EmptyString;
            SourceFilter := "web" |} (Http true) /\
  logsHandler ∅ sample_request {["predicate" := "since"; "value" := "1h"]} =
  Listen {| SourceID := EmptyString; SourceName := EmptyString;
            SourceFilter := EmptyString |} (Http true).
Proof.
  split.
  - destruct (logs_other_predicates ∅ sample_request
                {["predicate" := "filter"; "value" := "web"]})
      as (_ & _ & H & _); [vm_compute; discriminate |].
    rewrite H by (vm_compute; first [reflexivity | discriminate]).
    reflexivity.
  - destruct (logs_other_predicates ∅ sample_request
                {["predicate" := "since"; "value" := "1h"]})
      as (_ & _ & _ & H); [vm_compute; discriminate |].
    rewrite H by (vm_compute; discriminate). reflexivity.
Defined.

(** ** The structured-stream streamer *)

Lemma wsPasses_guard (query_type : string) (logline : Log) :
  negb (String.eqb query_type EmptyString) &&
  negb (String.eqb (Type_ logline) query_type) =
  negb (wsPasses query_type logline).
Proof.
  unfold wsPasses. destruct (String.eqb query_type EmptyString),
    (String.eqb (Type_ logline) query_type); reflexivity.
Qed.

Lemma websocketLoop_all (query_type : string) (write_fails : nat -> bool)
    (logstream : list Log) (n : nat) :
  (forall i, (i < length (List.filter (wsPasses query_type) logstream))%nat ->
             write_fails (n + i)%nat = false) ->
  websocketLoop query_type write_fails n logstream =
  (map (fun logline => (Log_json logline, true))
     (List.filter (wsPasses query_type) logstream), false).
Proof.
  revert n; induction logstream as [|x rest IH]; intros n Hok; [reflexivity |].
  cbn [websocketLoop List.filter] in *. rewrite wsPasses_guard.
  destruct (wsPasses query_type x); cbn [negb]; [|apply IH, Hok].
  assert (write_fails n = false) as ->
    by (rewrite <- (Nat.add_0_r n); apply Hok; cbn; lia).
  rewrite IH; [reflexivity |]. intros i Hi.
  replace (S n + i)%nat with (n + S i)%nat by lia. apply Hok. cbn. lia.
Qed.

Lemma websocketLoop_fails (query_type : string) (write_fails : nat -> bool)
    (logstream : list Log) (n k : nat) (logline : Log) :
  List.filter (wsPasses query_type) logstream !! k = Some logline ->
  write_fails (n + k)%nat = true ->
  (forall i, (i < k)%nat -> write_fails (n + i)%nat = false) ->
  websocketLoop query_type write_fails n logstream =
  (map (fun l => (Log_json l, true))
     (take k (List.filter (wsPasses query_type) logstream)) ++
   [(Log_json logline, false)], true).
Proof.
  revert n k; induction logstream as [|x rest IH]; intros n k Hk Hfail Hok;
    [discriminate Hk |].
  cbn [websocketLoop List.filter] in *. rewrite wsPasses_guard.
  destruct (wsPasses query_type x); cbn [negb]; [|apply IH; assumption].
  destruct k as [|k].
  - change (Some x = Some logline) in Hk. injection Hk as <-.
    rewrite Nat.add_0_r in Hfail. rewrite Hfail. reflexivity.
  - change (List.filter (wsPasses query_type) rest !! k = Some logline) in Hk.
    assert (write_fails n = false) as ->
      by (rewrite <- (Nat.add_0_r n); apply Hok; lia).
    rewrite (IH (S n) k Hk).
    + reflexivity.
    + replace (S n + k)%nat with (n + S k)%nat by lia. exact Hfail.
    + intros i Hi. replace (S n + i)%nat with (n + S i)%nat by lia.
      apply Hok. lia.
Qed.

(** X15: [websocketStreamer] hands to the connection, in order, the JSON
    of the records whose type equals the [type] parameter of the query (all
    of them when it is empty).  While no write fails it goes on to the end
    of the stream and sends nothing on [closer]; at the first write that
    fails it sends [true] on [closer] and returns: the frames before it were
    written, and no record after it is looked at. *)
Theorem websocket_stops_at_failed_write (query_type : string)
    (write_fails : nat -> bool) (logstream : list Log) :
  let sent := List.filter (wsPasses query_type) logstream in
  ((forall i, (i < length sent)%nat -> write_fails i = false) ->
   websocketStreamer query_type write_fails logstream =
   (map (fun logline => (Log_json logline, true)) sent, false)) /\
  (forall k logline,
     sent !! k = Some logline ->
     write_fails k = true ->
     (forall i, (i < k)%nat -> write_fails i = false) ->
     websocketStreamer query_type write_fails logstream =
     (map (fun l => (Log_json l, true)) (take k sent) ++
      [(Log_json logline, false)], true)).
Proof.
  intros sent. unfold websocketStreamer. split.
  - intros Hok. apply websocketLoop_all. exact Hok.
  - intros k logline Hk Hfail Hok.
    apply websocketLoop_fails; assumption.
Qed.

Lemma websocket_stops_at_failed_write_witness :
  websocketStreamer "stdout" (fun n => (0 <? n)%nat)
    [sample_log "web-1" "stdout" "a"; sample_log "web-1" "stderr" "b";
     sample_log "web-1" "stdout" "c"; sample_log "web-1" "stdout" "d"] =
  ([(Log_json (sample_log "web-1" "stdout" "a"), true);
    (Log_json (sample_log "web-1" "stdout" "c"), false)], true).
Proof.
  destruct (websocket_stops_at_failed_write "stdout" (fun n => (0 <? n)%nat)
              [sample_log "web-1" "stdout" "a"; sample_log "web-1" "stderr" "b";
               sample_log "web-1" "stdout" "c"; sample_log "web-1" "stdout" "d"])
    as [_ H].
  rewrite (H 1%nat (sample_log "web-1" "stdout" "c"));
    [reflexivity | reflexivity | reflexivity |].
  intros i Hi. assert (i = 0%nat) as -> by lia. reflexivity.
Defined.

(** ** Options from the environment *)

(** X16: [getopt] gives the default for a variable that is not set and
    also for one set to the empty string, and the value of the variable
    otherwise; so it is empty only when the default is.  Hence [main]
    never starts with an empty port, endpoint or routes path, and debug
    mode is on exactly when [DEBUG] is set to a non-empty value. *)
Theorem getopt_default (env : gmap string string) (name dfault : string) :
  (env !! name = None \/ env !! name = Some EmptyString ->
   getopt env name dfault = dfault) /\
  (forall value, env !! name = Some value -> value <> EmptyString ->
                 getopt env name dfault = value) /\
  (dfault <> EmptyString -> getopt env name dfault <> EmptyString) /\
  port (main_options env) <> EmptyString /\
  endpoint (main_options env) <> EmptyString /\
  routespath (main_options env) <> EmptyString /\
  (debugMode (main_options env) = true <->
   exists value, env !! "DEBUG" = Some value /\ value <> EmptyString).
Proof.
  assert (forall n d,
            (env !! n = None \/ env !! n = Some EmptyString ->
             getopt env n d = d) /\
            (forall value, env !! n = Some value -> value <> EmptyString ->
                           getopt env n d = value)) as Hget.
  { intros n d. unfold getopt, Getenv. split.
    - intros [-> | ->]; reflexivity.
    - intros value -> Hne. apply String.eqb_neq in Hne. rewrite Hne.
      reflexivity. }
  assert (forall n d, d <> EmptyString -> getopt env n d <> EmptyString) as Hne.
  { intros n d Hd. destruct (env !! n) as [value|] eqn:E.
    - destruct (String.eqb value EmptyString) eqn:Ev.
      + apply String.eqb_eq in Ev. subst value.
        rewrite (proj1 (Hget n d)) by (right; exact E). exact Hd.
      + apply String.eqb_neq in Ev.
        rewrite (proj2 (Hget n d) value E Ev). exact Ev.
    - rewrite (proj1 (Hget n d)) by (left; exact E). exact Hd. }
  split; [apply Hget |]. split; [apply Hget |]. split; [apply Hne |].
  cbn [port endpoint routespath debugMode main_options].
  split; [apply Hne; discriminate |]. split; [apply Hne; discriminate |].
  split; [apply Hne; discriminate |]. split.
  - intros H. apply negb_true_iff, String.eqb_neq in H.
    destruct (env !! "DEBUG") as [value|] eqn:E.
    + exists value. split; [reflexivity |]. intros ->. apply H.
      apply (proj1 (Hget "DEBUG" EmptyString)). right. exact E.
    + destruct H. apply (proj1 (Hget "DEBUG" EmptyString)). left. exact E.
  - intros (value & E & Hv). apply negb_true_iff, String.eqb_neq.
    rewrite (proj2 (Hget "DEBUG" EmptyString) value E Hv). exact Hv.
Qed.

Lemma getopt_default_witness :
  getopt {["PORT" := EmptyString]} "PORT" "8000" = "8000" /\
  getopt {["PORT" := "9000"]} "PORT" "8000" = "9000".
Proof.
  split.
  - destruct (getopt_default {["PORT" := EmptyString]} "PORT" "8000")
      as [H _].
    apply H. right. reflexivity.
  - destruct (getopt_default {["PORT" := "9000"]} "PORT" "8000")
      as (_ & H & _).
    apply H; [reflexivity | discriminate].
Defined.

(** ** Types that pass every route filter *)

(** X17: the route streamers look for the type of a record as a substring
    between the commas of the joined list, so a record whose type is the
    empty string, or a single comma, passes the test of every route,
    whatever types the route lists. *)
Theorem degenerate_types_always_accepted (types : list string)
    (logline : Log) :
  Type_ logline = EmptyString \/ Type_ logline = "," ->
  accepted (typestr_of types) logline = true.
Proof.
  intros H. rewrite accepted_spec. apply orb_true_iff. right.
  unfold typestr_of. destruct H as [-> | ->].
  - destruct ("," +:+ Strings.Join types "," +:+ ","); reflexivity.
  - apply (Contains_self_app "," (Strings.Join types "," +:+ ",")).
Qed.

Lemma degenerate_types_always_accepted_witness :
  accepted (typestr_of ["stderr"]) (sample_log "web-1" EmptyString "x") = true.
Proof.
  apply degenerate_types_always_accepted. left. reflexivity.
Defined.

(** ** The syslog streamer up to a failed dial *)

(** X18: when the dials for the accepted records of [before] succeed and
    the dial for the accepted record after them fails, [syslogStreamer]
    ends the process with status 1: the records of [before] were sent, each
    on a writer of its own, the trace ends with the failed dial and the
    fatal line, and what follows in the stream makes no difference. *)
Theorem syslog_first_failed_dial (target : Target) (types : list string)
    (before after : list Log) (logline : Log) (w : World) :
  let sent := List.filter (accepted (typestr_of types)) before in
  (forall i, (i < length sent)%nat ->
             failing w (calls w + 2 * i)%nat = false) ->
  accepted (typestr_of types) logline = true ->
  failing w (calls w + 2 * length sent)%nat = true ->
  exists w',
    syslogStreamer target types (before ++ logline :: after) w = (Exit 1, w') /\
    writers w' =
      writers w ++
      map (fun l => (syslogPriority, Name l +:+ AppendTag target)) sent /\
    trace w' =
      trace w ++ syslogEvents target w (length (writers w)) (calls w) sent ++
      [EvSyslogDial "udp" (Addr target) syslogPriority
         (Name logline +:+ AppendTag target) None;
       EvFatal "syslog"].
Proof.
  intros sent Hok Hacc Hfail. eexists. unfold syslogStreamer.
  rewrite range_app, syslog_loop by exact Hok.
  rewrite range_cons, syslogStep_fatal by assumption.
  cbn [writers trace]. split; [reflexivity |]. split; [reflexivity |].
  rewrite <- !app_assoc. reflexivity.
Qed.

Lemma syslog_first_failed_dial_witness :
  exists w',
    syslogStreamer sample_target []
      [sample_log "web-1" "stdout" "a"; sample_log "web-2" "stdout" "b";
       sample_log "web-3" "stdout" "c"]
      {| clock := clock quiet; ticks := 0;
         failing := fun n => (1 <? n)%nat; calls := 0; writers := [];
         conns := 0; trace := [] |} = (Exit 1, w') /\
    writers w' = [(14, "web-1.prod")].
Proof.
  destruct (syslog_first_failed_dial sample_target []
              [sample_log "web-1" "stdout" "a"]
              [sample_log "web-3" "stdout" "c"]
              (sample_log "web-2" "stdout" "b")
              {| clock := clock quiet; ticks := 0;
                 failing := fun n => (1 <? n)%nat; calls := 0; writers := [];
                 conns := 0; trace := [] |})
    as (w' & Hrun & Hwriters & _).
  { intros i Hi. change (i < 1)%nat in Hi.
    assert (i = 0%nat) as -> by lia. reflexivity. }
  { reflexivity. }
  { reflexivity. }
  exists w'. split; [exact Hrun | exact Hwriters].
Defined.
